(** * numbers_analysis: numbers hidden inside a text

    A shallow embedding of [scripts/numbers_analysis.py] and the
    properties of its tokenizer, of its four analyses and of its command
    line entry point.

    Conventions of the embedding:
    - a Python [str] is the list of its Unicode code points ([N]);
    - a Python [int] is a [Z]: integers are unbounded, but the conversions
      [int(str)] and [str(int)] are those of the interpreter, which by
      default refuses to convert more than 4300 digits;
    - a call that may raise returns a [result]: [Ok v] or [Raise e] with [e]
      the class of the exception;
    - the file system is an abstract interface ([FileSystem]); the entry point
      runs over any implementation of it, and [MemFS] is an in-memory one. *)

From stdpp Require Import gmap strings list fin_maps sorting.
From Equations Require Import Equations.
From Stdlib Require Import ZArith NArith Lia.

(** ** Characters and strings *)

Abbreviation char := N (only parsing).
Abbreviation str := (list N) (only parsing).

(** An ASCII literal of the source, as a [str]. *)
Definition lit (s : string) : str :=
  map (fun a => N.of_nat (Ascii.nat_of_ascii a)) (String.list_ascii_of_string s).

Definition is_ascii (c : char) : bool := (c <? 128)%N.
Definition is_ascii_digit (c : char) : bool := ((48 <=? c) && (c <=? 57))%N.

(** The decimal digits of the Unicode Character Database (general category
    Nd, version 15): every digit system is encoded as ten consecutive code
    points, zero first, so the table lists the code point of each zero. *)
Definition decimal_zeros : list char :=
  [ 0x0030; 0x0660; 0x06F0; 0x07C0; 0x0966; 0x09E6; 0x0A66; 0x0AE6; 0x0B66;
    0x0BE6; 0x0C66; 0x0CE6; 0x0D66; 0x0DE6; 0x0E50; 0x0ED0; 0x0F20; 0x1040;
    0x1090; 0x17E0; 0x1810; 0x1946; 0x19D0; 0x1A80; 0x1A90; 0x1B50; 0x1BB0;
    0x1C40; 0x1C50; 0xA620; 0xA8D0; 0xA900; 0xA9D0; 0xA9F0; 0xAA50; 0xABF0;
    0xFF10; 0x104A0; 0x10D30; 0x11066; 0x110F0; 0x11136; 0x111D0; 0x112F0;
    0x11450; 0x114D0; 0x11650; 0x116C0; 0x11730; 0x118E0; 0x11950; 0x11C50;
    0x11D50; 0x11DA0; 0x11F50; 0x16A60; 0x16AC0; 0x16B50;
    0x1D7CE; 0x1D7D8; 0x1D7E2; 0x1D7EC; 0x1D7F6;
    0x1E140; 0x1E2F0; 0x1E4F0; 0x1E950; 0x1FBF0 ]%N.

Definition in_block (c zero : char) : bool :=
  ((zero <=? c) && (c <? zero + 10))%N.

(** [Py_UNICODE_TODECIMAL]: the digit a character stands for, if any. *)
Definition decimal_value (c : char) : option N :=
  match find (in_block c) decimal_zeros with
  | Some zero => Some (c - zero)%N
  | None => None
  end.

(** What [\d] matches in a [str] pattern compiled without [re.ASCII]. *)
Definition is_decimal (c : char) : bool :=
  match decimal_value c with Some _ => true | None => false end.

(** ** The tokenizer *)

Record NumberToken := { text : str }.

(** The property [NumberToken.length]: [len(self.text)]. *)
Definition token_length (t : NumberToken) : nat := length (text t).

(** The greatest number of repetitions [\d+] can take in [l]. *)
Fixpoint count_digits (l : str) : nat :=
  match l with
  | c :: l' => if is_decimal c then S (count_digits l') else O
  | [] => O
  end.

(** A match object of the pattern: the span [start, stop) of group 0. *)
Abbreviation Match := (nat * nat)%type (only parsing).

Section Regex.
Variable s : str.

Definition digit_at (i : nat) : bool :=
  match s !! i with Some c => is_decimal c | None => false end.

(** [(?<!\d)] at position [pos]. *)
Definition lookbehind_not_digit (pos : nat) : bool :=
  match pos with
  | O => true
  | S p => negb (digit_at p)
  end.

(** [(?!\d)] at position [pos]. *)
Definition lookahead_not_digit (pos : nat) : bool := negb (digit_at pos).

(** [\d+] followed by the lookahead: the greedy repetition tries [n]
    characters first and gives one back at a time, down to one. *)
Fixpoint repeat_then_lookahead (pos n : nat) : option nat :=
  match n with
  | O => None
  | S m =>
      if lookahead_not_digit (pos + n) then Some (pos + n)
      else repeat_then_lookahead pos m
  end.

(** The whole pattern [(?<!\d)(\d+)(?!\d)] tried at [pos]: the end of the
    match when there is one. *)
Definition match_at (pos : nat) : option nat :=
  if lookbehind_not_digit pos
  then repeat_then_lookahead pos (count_digits (drop pos s))
  else None.

(** [_NUMBER_PATTERN.finditer(text)] from position [pos]: the pattern is
    tried at [pos]; after a match the scan resumes at its end (an engine
    steps over a match that consumed nothing), without one at the next
    position, up to the end of the string included. *)
Equations? finditer_from (pos : nat) : list Match
  by wf (S (length s) - pos) lt :=
  finditer_from pos with le_lt_dec pos (length s) := {
    | right _ => []
    | left _ with match_at pos := {
        | Some stop => (pos, stop) :: finditer_from (Nat.max stop (S pos))
        | None => finditer_from (S pos) } }.
Proof. all: lia. Qed.

Definition finditer : list Match := finditer_from 0.

(** [match.group(0)]. *)
Definition group0 (m : Match) : str := take (m.2 - m.1) (drop m.1 s).
End Regex.

Definition extract_number_tokens (s : str) : list NumberToken :=
  map (fun m => {| text := group0 s m |}) (finditer s).

(** ** Exceptions *)

Inductive exn :=
| ValueError
| KeyError
| LookupError
| UnicodeDecodeError
| UnicodeEncodeError
| FileNotFoundError
| FileExistsError
| NotADirectoryError
| IsADirectoryError
| PermissionError.

Inductive result (A : Type) :=
| Ok (a : A)
| Raise (e : exn).
Arguments Ok {A} a.
Arguments Raise {A} e.

Definition result_bind {A B} (r : result A) (k : A -> result B) : result B :=
  match r with
  | Ok a => k a
  | Raise e => Raise e
  end.

(** Evaluating [f x] for each [x] of a list, left to right, up to the first
    one that raises. *)
Fixpoint result_map {A B} (f : A -> result B) (l : list A) : result (list B) :=
  match l with
  | [] => Ok []
  | x :: l' =>
      result_bind (f x) (fun y =>
      result_bind (result_map f l') (fun ys => Ok (y :: ys)))
  end.

(** ** The builtins [int] and [str] *)

(** The characters [int] skips around a number: ASCII white space as it
    is, and the other Unicode white space, which it reads as a space. *)
Definition is_ascii_space (c : char) : bool :=
  (((9 <=? c) && (c <=? 13)) || (c =? 32))%N.

Definition unicode_spaces : list char :=
  [ 0x85; 0xA0; 0x1680; 0x2000; 0x2001; 0x2002; 0x2003; 0x2004; 0x2005;
    0x2006; 0x2007; 0x2008; 0x2009; 0x200A; 0x2028; 0x2029; 0x202F; 0x205F;
    0x3000 ]%N.

Definition is_unicode_space (c : char) : bool :=
  existsb (N.eqb c) unicode_spaces.

(** [int] first brings its argument to ASCII: a character below 127 stays,
    white space becomes a space, a decimal digit the ASCII digit of its
    value, and anything else a character no number contains. *)
Definition to_ascii_char (c : char) : char :=
  if (c <? 127)%N then c
  else if is_unicode_space c then 32%N
  else match decimal_value c with
       | Some d => (48 + d)%N
       | None => 63%N
       end.

Fixpoint lstrip (l : str) : str :=
  match l with
  | c :: l' => if is_ascii_space c then lstrip l' else l
  | [] => []
  end.

(** An optional sign: whether it is a minus, and what follows it. *)
Definition parse_sign (l : str) : bool * str :=
  match l with
  | c :: l' =>
      if (c =? 45)%N then (true, l')
      else if (c =? 43)%N then (false, l')
      else (false, l)
  | [] => (false, [])
  end.

(** [sys.int_info.default_max_str_digits]: the greatest number of digits
    the interpreter converts between [str] and [int], unless it is told
    otherwise. *)
Definition max_str_digits : nat := 4300.

(** The digits of the number, with single underscores allowed between two
    of them: [acc] is the value read so far, [digits] the number of digits
    read so far and [prev] the character before [l]. The result is the
    value, the number of its digits and what follows the number. *)
Fixpoint parse_digits (acc : N) (digits : nat) (prev : char) (l : str)
  : option (N * nat * str) :=
  match l with
  | c :: l' =>
      if is_ascii_digit c
      then parse_digits (10 * acc + (c - 48))%N (S digits) c l'
      else if (c =? 95)%N then
        if (prev =? 95)%N then None else parse_digits acc digits c l'
      else if (prev =? 95)%N then None else Some (acc, digits, l)
  | [] => if (prev =? 95)%N then None else Some (acc, digits, [])
  end.

(** The number itself: digits, at least one and a digit first, no more of
    them than the limit, leading zeros counted, then white space up to the
    end. *)
Definition parse_number (negative : bool) (l : str) : result Z :=
  match l with
  | c :: _ =>
      if is_ascii_digit c then
        match parse_digits 0%N 0 0%N l with
        | Some (n, digits, rest) =>
            if max_str_digits <? digits then Raise ValueError
            else if forallb is_ascii_space rest
            then Ok (if negative then - Z.of_N n else Z.of_N n)%Z
            else Raise ValueError
        | None => Raise ValueError
        end
      else Raise ValueError
  | [] => Raise ValueError
  end.

(** [int(s)] in base ten: white space, an optional sign, the number, white
    space; [ValueError] for anything else. *)
Definition py_int (s : str) : result Z :=
  let (negative, l) := parse_sign (lstrip (map to_ascii_char s)) in
  parse_number negative l.

(** The decimal digits of a natural number, most significant first. *)
Equations? digits_of (n : N) : str by wf (N.to_nat n) lt :=
  digits_of n with decide (n < 10)%N := {
    | left _ => [(48 + n)%N]
    | right _ => digits_of (n / 10)%N ++ [(48 + n mod 10)%N] }.
Proof.
  assert (n / 10 < n)%N by (apply N.div_lt; lia). lia.
Qed.

(** The decimal string of an integer [z]: a minus sign when it is negative
    and its digits. *)
Definition decimal_string (z : Z) : str :=
  if (z <? 0)%Z then 45%N :: digits_of (Z.abs_N z) else digits_of (Z.abs_N z).

(** [str(z)] for an integer [z]: its decimal string, and [ValueError] when
    it has more digits than the limit. *)
Definition py_str (z : Z) : result str :=
  if max_str_digits <? length (digits_of (Z.abs_N z)) then Raise ValueError
  else Ok (decimal_string z).

(** [str(n)] for a length [n]. A sequence holds at most [sys.maxsize]
    items, a number of nineteen digits on the largest build, so the limit of
    [str] is never met by a length: its digits are written as they are. *)
Definition str_len (n : nat) : str := decimal_string (Z.of_nat n).

(** ** The analyses *)

(** The property [NumberToken.value]: [int(self.text)]. *)
Definition value (t : NumberToken) : result Z := py_int (text t).

Definition BRAK : str := lit "BRAK".

Definition count_tokens (tokens : list NumberToken) : result str :=
  let token_list := tokens in
  Ok (str_len (length token_list)).

(** The builtin [sum] over integers: from zero, left to right. *)
Definition py_sum (l : list Z) : Z := fold_left Z.add l 0%Z.

Definition sum_tokens (tokens : list NumberToken) : result str :=
  result_bind (result_map value tokens) (fun values =>
  let total := py_sum values in
  py_str total).

(** The builtin [max] over a sequence: [ValueError] when it is empty;
    otherwise the first item is the maximum so far, and a later item
    replaces it when it is strictly greater. *)
Definition py_max (l : list Z) : result Z :=
  match l with
  | [] => Raise ValueError
  | x :: l' => Ok (fold_left (fun m v => if (m <? v)%Z then v else m) l' x)
  end.

Definition max_token (tokens : list NumberToken) : result str :=
  let token_list := tokens in
  match token_list with
  | [] => Ok BRAK
  | _ :: _ =>
      result_bind (result_map value token_list) (fun values =>
      result_bind (py_max values) (fun greatest =>
      py_str greatest))
  end.

(** One turn of the loop of [longest_token]: the candidate becomes the
    longest when it is strictly longer. *)
Definition longer (longest candidate : NumberToken) : NumberToken :=
  if token_length longest <? token_length candidate then candidate else longest.

Definition longest_token (tokens : list NumberToken) : result str :=
  let token_list := tokens in
  match token_list with
  | [] => Ok BRAK
  | first :: others =>
      let longest := fold_left longer others first in
      Ok (text longest ++ lit " " ++ str_len (token_length longest))
  end.

Definition TaskFunction := list NumberToken -> result str.

Definition TASKS : gmap string TaskFunction :=
  <["count" := count_tokens]>
  (<["sum" := sum_tokens]>
  (<["max" := max_token]>
  (<["longest" := longest_token]> ∅))).

(** ** The command line entry point *)

(** A path, as the list of its components from the root. *)
Abbreviation Path := (list string) (only parsing).

Definition joinpath (p : Path) (name : string) : Path := p ++ [name].

(** The namespace [_parse_args] returns. *)
Record Namespace := {
  input : Path;
  output_dir : Path;
  encoding : string;
  tasks : list string
}.

(** What [main] asks of the file system, through [pathlib]: the calls that
    write return the file system they leave behind also when they raise. *)
Class FileSystem (W : Type) := {
  fs_is_file : W -> Path -> bool;
  fs_read_text : W -> Path -> string -> result str;
  fs_mkdir_parents_exist_ok : W -> Path -> W * result unit;
  fs_write_text : W -> Path -> str -> string -> W * result unit
}.

(** The steps of a run that the outside can tell apart. *)
Inductive event :=
| EvIsFile (p : Path)
| EvReadText (p : Path)
| EvTokenize
| EvMkdir (p : Path)
| EvWriteText (p : Path) (data : str).

Record process (W : Type) := {
  world : W;
  trace : list event
}.
Arguments world {W} _.
Arguments trace {W} _.

Definition M (W A : Type) : Type := process W -> result A * process W.

Section Main.
Context {W : Type} `{FileSystem W}.

Definition ret {A} (a : A) : M W A := fun st => (Ok a, st).

Definition raise {A} (e : exn) : M W A := fun st => (Raise e, st).

Definition bind {A B} (m : M W A) (k : A -> M W B) : M W B :=
  fun st =>
    match m st with
    | (Ok a, st') => k a st'
    | (Raise e, st') => (Raise e, st')
    end.

Definition lift {A} (r : result A) : M W A := fun st => (r, st).

Definition emit (e : event) (st : process W) : process W :=
  {| world := world st; trace := trace st ++ [e] |}.

Definition is_file (p : Path) : M W bool :=
  fun st => (Ok (fs_is_file (world st) p), emit (EvIsFile p) st).

Definition read_text (p : Path) (enc : string) : M W str :=
  fun st => (fs_read_text (world st) p enc, emit (EvReadText p) st).

Definition tokenize (text : str) : M W (list NumberToken) :=
  fun st => (Ok (extract_number_tokens text), emit EvTokenize st).

Definition mkdir (p : Path) : M W unit :=
  fun st =>
    let (w, r) := fs_mkdir_parents_exist_ok (world st) p in
    (r, {| world := w; trace := trace st ++ [EvMkdir p] |}).

Definition write_text (p : Path) (data : str) (enc : string) : M W unit :=
  fun st =>
    let (w, r) := fs_write_text (world st) p data enc in
    (r, {| world := w; trace := trace st ++ [EvWriteText p data] |}).

Fixpoint for_each {A} (l : list A) (body : A -> M W unit) : M W unit :=
  match l with
  | [] => ret tt
  | x :: l' => bind (body x) (fun _ => for_each l' body)
  end.

(** [TASKS[task_name]]. *)
Definition lookup_task (task_name : string) : M W TaskFunction :=
  match TASKS !! task_name with
  | Some task => ret task
  | None => raise KeyError
  end.

Definition main (args : Namespace) : M W unit :=
  bind (is_file (input args)) (fun found =>
  if negb found then raise FileNotFoundError else
  bind (read_text (input args) (encoding args)) (fun text =>
  bind (tokenize text) (fun tokens =>
  bind (mkdir (output_dir args)) (fun _ =>
  for_each (tasks args) (fun task_name =>
    bind (lookup_task task_name) (fun task =>
    bind (lift (task tokens)) (fun result =>
    let output_path := joinpath (output_dir args) (task_name +:+ ".txt") in
    write_text output_path (result ++ [10%N]) (encoding args)))))))).
End Main.

(** ** An in-memory file system *)

Inductive node :=
| File (content : list N)
| Dir.

Abbreviation MemFS := (gmap (list string) node) (only parsing).

Definition parent (p : Path) : Path := removelast p.

Definition mem_is_file (fs : MemFS) (p : Path) : bool :=
  match fs !! p with Some (File _) => true | _ => false end.

(** The root is a directory of every file system. *)
Definition mem_is_dir (fs : MemFS) (p : Path) : bool :=
  match p with
  | [] => true
  | _ => match fs !! p with Some Dir => true | _ => false end
  end.

Definition mem_exists (fs : MemFS) (p : Path) : bool :=
  match p with
  | [] => true
  | _ => match fs !! p with Some _ => true | None => false end
  end.

(** The two codecs this file system knows: the code points below the bound
    are the bytes. *)
Definition codec_bound (enc : string) : option N :=
  if String.eqb enc "ascii" then Some 128%N
  else if String.eqb enc "latin-1" then Some 256%N
  else None.

Definition mem_decode (enc : string) (bytes : list N) : result str :=
  match codec_bound enc with
  | None => Raise LookupError
  | Some bound =>
      if forallb (fun b => (b <? bound)%N) bytes then Ok bytes
      else Raise UnicodeDecodeError
  end.

Definition mem_encode (enc : string) (data : str) : result (list N) :=
  match codec_bound enc with
  | None => Raise LookupError
  | Some bound =>
      if forallb (fun c => (c <? bound)%N) data then Ok data
      else Raise UnicodeEncodeError
  end.

Definition mem_read_text (fs : MemFS) (p : Path) (enc : string) : result str :=
  match fs !! p with
  | Some (File bytes) => mem_decode enc bytes
  | Some Dir => Raise IsADirectoryError
  | None => if mem_is_dir fs p then Raise IsADirectoryError
            else Raise FileNotFoundError
  end.

(** [os.mkdir]. *)
Definition os_mkdir (fs : MemFS) (p : Path) : result MemFS :=
  if mem_exists fs p then Raise FileExistsError
  else if mem_is_dir fs (parent p) then Ok (<[p := Dir]> fs)
  else if mem_exists fs (parent p) then Raise NotADirectoryError
  else Raise FileNotFoundError.

(** [Path.mkdir(exist_ok=True)]. *)
Definition mem_mkdir_exist_ok (fs : MemFS) (p : Path) : MemFS * result unit :=
  match os_mkdir fs p with
  | Ok fs' => (fs', Ok tt)
  | Raise FileNotFoundError => (fs, Raise FileNotFoundError)
  | Raise e => if mem_is_dir fs p then (fs, Ok tt) else (fs, Raise e)
  end.

(** [Path.mkdir(parents=True, exist_ok=True)]: the missing parents are made
    first, the nearest to the root first; [n] bounds the number of them. *)
Fixpoint mem_mkdir_parents (n : nat) (fs : MemFS) (p : Path)
  : MemFS * result unit :=
  match os_mkdir fs p with
  | Ok fs' => (fs', Ok tt)
  | Raise FileNotFoundError =>
      match n with
      | O => (fs, Raise FileNotFoundError)
      | S n' =>
          match mem_mkdir_parents n' fs (parent p) with
          | (fs', Ok _) => mem_mkdir_exist_ok fs' p
          | (fs', Raise e) => (fs', Raise e)
          end
      end
  | Raise e => if mem_is_dir fs p then (fs, Ok tt) else (fs, Raise e)
  end.

(** [Path.write_text]: the file is opened for writing, which creates or
    empties it, before the text is encoded. *)
Definition mem_write_text (fs : MemFS) (p : Path) (data : str) (enc : string)
  : MemFS * result unit :=
  if mem_is_dir fs p then (fs, Raise IsADirectoryError)
  else if negb (mem_is_dir fs (parent p)) then
    (fs, Raise (if mem_exists fs (parent p) then NotADirectoryError
                else FileNotFoundError))
  else
    match mem_encode enc data with
    | Ok bytes => (<[p := File bytes]> fs, Ok tt)
    | Raise e => (<[p := File []]> fs, Raise e)
    end.

#[export] Instance MemFS_FileSystem : FileSystem MemFS := {
  fs_is_file := mem_is_file;
  fs_read_text := mem_read_text;
  fs_mkdir_parents_exist_ok := fun fs p => mem_mkdir_parents (length p) fs p;
  fs_write_text := mem_write_text
}.

Definition start {W} (w : W) : process W := {| world := w; trace := [] |}.

Definition sample_text : str := lit "356xv@@4vdfvdfD#$%@@#245".

Definition sample_fs : MemFS := <[ ["dane.txt"] := File sample_text ]> ∅.


(** A file that holds one number of 4301 digits, and arguments that ask
    for the sum of its numbers. *)
Definition long_number_fs : MemFS :=
  <[ ["dane.txt"] := File (replicate 4301 49%N) ]> ∅.

Definition sum_args : Namespace :=
  {| input := ["dane.txt"]; output_dir := ["out"];
     encoding := "ascii"; tasks := ["sum"] |}.

Definition sample_args : Namespace :=
  {| input := ["dane.txt"]; output_dir := ["out"; "answers"];
     encoding := "ascii"; tasks := ["count"; "sum"; "max"; "longest"] |}.

Definition tokens_of_texts (l : list string) : list NumberToken :=
  map (fun s => {| text := lit s |}) l.

(** ** Specification vocabulary *)

(** [i, j) is a maximal digit run of [s]: a non-empty range of decimal
    digits with no decimal digit just before it nor just after it. *)
Definition maximal_digit_run (s : str) (i j : nat) : Prop :=
  i < j /\
  (forall k, i <= k < j -> exists c, s !! k = Some c /\ is_decimal c = true) /\
  (forall p c, i = S p -> s !! p = Some c -> is_decimal c = false) /\
  (forall c, s !! j = Some c -> is_decimal c = false).

(** Matches in left to right order, each one ending before the next one
    starts. *)
Definition apart (a b : Match) : Prop := a.2 < b.1.

(** The number a string of ASCII digits denotes in base ten. *)
Definition decimal_number (ds : str) : N :=
  fold_left (fun acc c => (10 * acc + (c - 48))%N) ds 0%N.

(** The digits of a number written without a leading zero: at least one
    ASCII digit, and a zero first only for the number zero itself. *)
Definition canonical_digits (ds : str) : Prop :=
  ds <> [] /\
  Forall (fun c => is_ascii_digit c = true) ds /\
  (forall ds', ds = 48%N :: ds' -> ds' = []).

(** [out] is the decimal string of the integer [z]: a minus sign when [z]
    is negative, then the digits of its absolute value. *)
Definition decimal_string_of (z : Z) (out : str) : Prop :=
  exists ds,
    canonical_digits ds /\
    decimal_number ds = Z.abs_N z /\
    out = (if (z <? 0)%Z then [45%N] else []) ++ ds.

(** An integer [str] and [int] convert: one of at most [max_str_digits]
    digits. *)
Definition within_limit (z : Z) : Prop :=
  (Z.abs z < 10 ^ Z.of_nat max_str_digits)%Z.

(** The number a string of decimal digits of any script denotes. *)
Definition digits_number (ds : str) : N :=
  fold_left (fun acc c => (10 * acc + default 0 (decimal_value c))%N) ds 0%N.

(** The text of a token the tokenizer can produce: decimal digits, and at
    least one. *)
Definition digit_run (ds : str) : Prop :=
  ds <> [] /\ Forall (fun c => is_decimal c = true) ds.


(** A position where a scan of [s] may stand: not inside a run that
    started earlier. *)
Definition scan_point (s : str) (pos : nat) : Prop :=
  forall p, pos = S p -> digit_at s p = true -> digit_at s pos = false.

(** Two characters the pattern cannot tell apart: the same digit, or two
    characters that are not digits. *)
Definition same_kind (c c' : N) : Prop :=
  if is_decimal c then c' = c else is_decimal c' = false.

(** A match [n] characters further. *)
Definition shift (n : nat) (m : Match) : Match := (n + m.1, n + m.2).

(** A place to cut a string in two without cutting a run: the character
    before the cut and the one after it are not both digits. *)
Definition clean_cut (s1 s2 : str) : Prop :=
  forall c c', last s1 = Some c -> head s2 = Some c' ->
               is_decimal c = true -> is_decimal c' = false.

(** The number an analysis answered, as [int] reads it back; none when the
    analysis raised or answered something that is not a number. *)
Definition answer_number (answer : result str) : option Z :=
  match answer with
  | Ok out => match py_int out with Ok z => Some z | Raise _ => None end
  | Raise _ => None
  end.

(** What [main] writes for a task, given the tokens of the text: the answer
    of the task and a newline, in the file of the task; nothing when the
    task is not one of [TASKS] or raises. *)
Definition task_output (args : Namespace) (tokens : list NumberToken)
    (task_name : string) : option event :=
  match TASKS !! task_name with
  | Some task =>
      match task tokens with
      | Ok result =>
          Some (EvWriteText (joinpath (output_dir args) (task_name +:+ ".txt"))
                            (result ++ [10%N]))
      | Raise _ => None
      end
  | None => None
  end.

(** One turn of the loop of [main]. *)
Definition run_task {W : Type} `{FileSystem W} (args : Namespace)
    (tokens : list NumberToken) (task_name : string) : M W unit :=
  bind (lookup_task task_name) (fun task =>
  bind (lift (task tokens)) (fun result =>
  let output_path := joinpath (output_dir args) (task_name +:+ ".txt") in
  write_text output_path (result ++ [10%N]) (encoding args))).

(** A run of digits that does not start with a zero. *)
Definition no_leading_zero (ds : str) : Prop :=
  digit_run ds /\
  forall c, head ds = Some c -> decimal_value c <> Some 0%N.

(** * Properties *)

Example extract_sample :
  extract_number_tokens sample_text = tokens_of_texts ["356"; "4"; "245"].
Proof. vm_compute. reflexivity. Qed.

Example extract_adjacency :
  extract_number_tokens (lit "12a34") = tokens_of_texts ["12"; "34"].
Proof. vm_compute. reflexivity. Qed.

Example py_int_accepts :
  py_int (lit "0042") = Ok 42%Z /\ py_int (lit " -17 ") = Ok (-17)%Z /\
  py_int (lit "+1_000") = Ok 1000%Z /\ py_int [0x663; 0x35]%N = Ok 35%Z.
Proof. vm_compute. repeat split. Qed.

Example py_int_rejects :
  py_int (lit "") = Raise ValueError /\ py_int (lit "abc") = Raise ValueError /\
  py_int (lit "1__0") = Raise ValueError /\ py_int (lit "- 1") = Raise ValueError /\
  py_int (lit "12a") = Raise ValueError.
Proof. vm_compute. repeat split. Qed.

Example py_str_renders :
  py_str 0 = Ok (lit "0") /\ py_str 605 = Ok (lit "605") /\
  py_str (-17) = Ok (lit "-17").
Proof. vm_compute. repeat split. Qed.

Example analyses_sample :
  let tokens := extract_number_tokens sample_text in
  count_tokens tokens = Ok (lit "3") /\ sum_tokens tokens = Ok (lit "605") /\
  max_token tokens = Ok (lit "356") /\ longest_token tokens = Ok (lit "356 3").
Proof. vm_compute. repeat split. Qed.

Example analyses_leading_zeros :
  let tokens := tokens_of_texts ["001"; "20"] in
  count_tokens tokens = Ok (lit "2") /\ sum_tokens tokens = Ok (lit "21") /\
  max_token tokens = Ok (lit "20") /\ longest_token tokens = Ok (lit "001 3").
Proof. vm_compute. repeat split. Qed.

Example analyses_no_number :
  let tokens := extract_number_tokens (lit "abc") in
  count_tokens tokens = Ok (lit "0") /\ sum_tokens tokens = Ok (lit "0") /\
  max_token tokens = Ok BRAK /\ longest_token tokens = Ok BRAK.
Proof. vm_compute. repeat split. Qed.

Example main_sample :
  let (r, st) := main sample_args (start sample_fs) in
  r = Ok tt /\
  world st !! ["out"; "answers"; "count.txt"] = Some (File (lit "3" ++ [10%N])) /\
  world st !! ["out"; "answers"; "sum.txt"] = Some (File (lit "605" ++ [10%N])) /\
  world st !! ["out"; "answers"; "max.txt"] = Some (File (lit "356" ++ [10%N])) /\
  world st !! ["out"; "answers"; "longest.txt"]
    = Some (File (lit "356 3" ++ [10%N])).
Proof. vm_compute. repeat split. Qed.

(** ** The pattern matches the maximal digit runs *)

Section RegexFacts.
Variable s : str.

Lemma digit_at_true i :
  digit_at s i = true <-> exists c, s !! i = Some c /\ is_decimal c = true.
Proof.
  unfold digit_at. destruct (s !! i) as [c|]; split.
  - intros Hc. exists c. auto.
  - intros (c' & Heq & Hc). congruence.
  - discriminate.
  - intros (c' & Heq & _). discriminate.
Qed.

Lemma digit_at_false i :
  digit_at s i = false <-> forall c, s !! i = Some c -> is_decimal c = false.
Proof.
  unfold digit_at. destruct (s !! i) as [c|]; split.
  - intros Hc c' [= <-]. exact Hc.
  - intros Hc. apply Hc. reflexivity.
  - intros _ c' [=].
  - reflexivity.
Qed.

Lemma digit_at_lt i : digit_at s i = true -> i < length s.
Proof.
  intros (c & Hc & _)%digit_at_true. eapply lookup_lt_Some, Hc.
Qed.

(** The characters [count_digits] counts are digits, and the one after
    them is not. *)
Lemma count_digits_inside (l : str) k :
  k < count_digits l -> exists c, l !! k = Some c /\ is_decimal c = true.
Proof.
  revert k. induction l as [|c l IH]; simpl; intros k Hk; [lia|].
  destruct (is_decimal c) eqn:Hc; [|lia].
  destruct k as [|k]; simpl.
  - exists c. auto.
  - apply IH. lia.
Qed.

Lemma count_digits_after (l : str) c :
  l !! count_digits l = Some c -> is_decimal c = false.
Proof.
  induction l as [|d l IH]; simpl; [discriminate|].
  destruct (is_decimal d) eqn:Hd; simpl.
  - exact IH.
  - intros [= <-]. exact Hd.
Qed.

Lemma count_digits_all (l : str) n :
  (forall k, k < n -> exists c, l !! k = Some c /\ is_decimal c = true) ->
  n <= count_digits l.
Proof.
  revert l. induction n as [|n IH]; intros l Hl; [lia|].
  destruct (Hl 0) as (c & Hc & Hd); [lia|].
  destruct l as [|c' l]; [discriminate|]. simpl in Hc. injection Hc as ->.
  simpl. rewrite Hd. apply le_n_S, IH. intros k Hk.
  apply (Hl (S k)). lia.
Qed.

Lemma digit_at_run pos k :
  k < count_digits (drop pos s) -> digit_at s (pos + k) = true.
Proof.
  intros Hk. apply digit_at_true.
  destruct (count_digits_inside _ _ Hk) as (c & Hc & Hd).
  rewrite lookup_drop in Hc. eauto.
Qed.

Lemma digit_at_run_end pos :
  digit_at s (pos + count_digits (drop pos s)) = false.
Proof.
  apply digit_at_false. intros c Hc. rewrite <- lookup_drop in Hc.
  eapply count_digits_after, Hc.
Qed.

(** The first length the repetition tries passes the lookahead: nothing
    is given back. *)
Lemma repeat_then_lookahead_greedy pos n :
  0 < n -> digit_at s (pos + n) = false ->
  repeat_then_lookahead s pos n = Some (pos + n).
Proof.
  intros Hn Hd. destruct n as [|n]; [lia|].
  simpl. unfold lookahead_not_digit. rewrite Hd. reflexivity.
Qed.

Lemma match_at_eq pos :
  match_at s pos =
    if lookbehind_not_digit s pos && (0 <? count_digits (drop pos s))
    then Some (pos + count_digits (drop pos s)) else None.
Proof.
  unfold match_at. destruct (lookbehind_not_digit s pos); simpl; [|reflexivity].
  destruct (Nat.ltb_spec 0 (count_digits (drop pos s))) as [Hn|Hn].
  - apply repeat_then_lookahead_greedy; [lia|apply digit_at_run_end].
  - assert (count_digits (drop pos s) = 0) as -> by lia. reflexivity.
Qed.

Lemma lookbehind_spec pos :
  lookbehind_not_digit s pos = true <->
  forall p c, pos = S p -> s !! p = Some c -> is_decimal c = false.
Proof.
  destruct pos as [|p]; simpl.
  - split; [intros _ p c [=]|reflexivity].
  - rewrite negb_true_iff, digit_at_false. split.
    + intros Hp q c [= <-]. apply Hp.
    + intros Hp c. apply (Hp p c). reflexivity.
Qed.

Lemma match_at_run pos stop :
  match_at s pos = Some stop <-> maximal_digit_run s pos stop.
Proof.
  rewrite match_at_eq. split.
  - destruct (lookbehind_not_digit s pos) eqn:Hb; [|discriminate].
    destruct (0 <? count_digits (drop pos s)) eqn:Hn; [|discriminate].
    simpl. intros [= <-]. apply Nat.ltb_lt in Hn.
    split; [lia|]. split; [|split].
    + intros k Hk. apply digit_at_true.
      replace k with (pos + (k - pos)) by lia. apply digit_at_run. lia.
    + apply lookbehind_spec, Hb.
    + apply digit_at_false, digit_at_run_end.
  - intros (Hlt & Hin & Hb & Ha).
    apply lookbehind_spec in Hb. rewrite Hb. simpl.
    assert (stop - pos <= count_digits (drop pos s)) as Hle.
    { apply count_digits_all. intros k Hk. rewrite lookup_drop.
      apply Hin. lia. }
    assert (count_digits (drop pos s) = stop - pos) as ->.
    { destruct (decide (stop - pos < count_digits (drop pos s))) as [Hc|]; [|lia].
      pose proof (digit_at_run pos (stop - pos) Hc) as Hd.
      replace (pos + (stop - pos)) with stop in Hd by lia.
      apply digit_at_true in Hd as (c & Hc1 & Hc2).
      rewrite (Ha c Hc1) in Hc2. discriminate. }
    destruct (0 <? stop - pos) eqn:Hpos.
    + f_equal. lia.
    + apply Nat.ltb_ge in Hpos. lia.
Qed.

Lemma maximal_digit_run_stop i j j' :
  maximal_digit_run s i j -> maximal_digit_run s i j' -> j = j'.
Proof.
  intros H1%match_at_run H2%match_at_run. congruence.
Qed.

(** Two maximal runs do not overlap: one that starts at or after the
    start of another and is not that one starts after its end. *)
Lemma maximal_digit_run_apart i j i' j' :
  maximal_digit_run s i j -> maximal_digit_run s i' j' ->
  i < i' -> j < i'.
Proof.
  intros (_ & Hin & _ & Hafter) (Hlt' & Hin' & Hb' & _) Hii.
  destruct (decide (j < i')) as [|Hge]; [assumption|exfalso].
  destruct i' as [|p]; [lia|].
  destruct (decide (p < j)) as [Hp|Hp].
  - destruct (Hin p) as (c & Hc & Hd); [lia|].
    rewrite (Hb' p c eq_refl Hc) in Hd. discriminate.
  - assert (j = S p) as -> by lia.
    destruct (Hin' (S p)) as (c & Hc & Hd); [lia|].
    rewrite (Hafter c Hc) in Hd. discriminate.
Qed.

Lemma maximal_digit_run_bound i j : maximal_digit_run s i j -> j <= length s.
Proof.
  intros (Hlt & Hin & _). destruct (Hin (j - 1)) as (c & Hc & _); [lia|].
  apply lookup_lt_Some in Hc. lia.
Qed.

Lemma finditer_from_run pos i j :
  In (i, j) (finditer_from s pos) <-> pos <= i /\ maximal_digit_run s i j.
Proof.
  funelim (finditer_from s pos).
  - simpl. split; [tauto|]. intros [Hle Hrun].
    pose proof (maximal_digit_run_bound _ _ Hrun). destruct Hrun. lia.
  - simpl. rewrite H. clear H.
    pose proof Heq as Hrun. apply match_at_run in Hrun.
    assert (pos < stop) by (destruct Hrun; lia).
    replace (Nat.max stop (S pos)) with stop by lia.
    split.
    + intros [[= <- <-]|[Hle Hr]]; [split; [lia|assumption]|].
      split; [lia|assumption].
    + intros [Hle Hr]. destruct (decide (i = pos)) as [->|Hne].
      * left. f_equal. eapply maximal_digit_run_stop; eassumption.
      * right. split; [|assumption].
        assert (stop < i); [|lia].
        eapply maximal_digit_run_apart; [exact Hrun|exact Hr|lia].
  - rewrite H. clear H. split; [intros [? ?]; split; [lia|assumption]|].
    intros [Hle Hr]. split; [|assumption].
    destruct (decide (i = pos)) as [->|]; [|lia].
    apply match_at_run in Hr. congruence.
Qed.
End RegexFacts.

Section TokenFacts.
Variable s : str.

Lemma match_at_stop pos stop :
  match_at s pos = Some stop ->
  0 < count_digits (drop pos s) /\ stop = pos + count_digits (drop pos s).
Proof.
  rewrite match_at_eq.
  destruct (lookbehind_not_digit s pos); [|discriminate].
  destruct (Nat.ltb_spec 0 (count_digits (drop pos s))); [|discriminate].
  simpl. intros [= <-]. auto.
Qed.

Lemma finditer_from_apart pos : StronglySorted apart (finditer_from s pos).
Proof.
  funelim (finditer_from s pos).
  - constructor.
  - destruct (match_at_stop _ _ Heq) as [Hn ->].
    replace (Nat.max (pos + count_digits (drop pos s)) (S pos))
      with (pos + count_digits (drop pos s)) in * by lia.
    constructor; [assumption|].
    apply Forall_forall. intros [i j] Hin.
    apply list_elem_of_In, finditer_from_run in Hin as [Hle Hrun].
    unfold apart. simpl.
    destruct (decide (i = pos + count_digits (drop pos s))) as [->|]; [|lia].
    destruct Hrun as (Hlt & Hdig & _).
    destruct (Hdig (pos + count_digits (drop pos s))) as (c & Hc & Hd); [lia|].
    pose proof (digit_at_run_end s pos) as Hend.
    rewrite digit_at_false in Hend. rewrite (Hend c Hc) in Hd. discriminate.
  - assumption.
Qed.

Lemma take_count_digits (l : str) :
  Forall (fun c => is_decimal c = true) (take (count_digits l) l).
Proof.
  induction l as [|c l IH]; simpl; [constructor|].
  destruct (is_decimal c) eqn:Hc; simpl; constructor; assumption.
Qed.

Lemma filter_all (l : str) :
  Forall (fun c => is_decimal c = true) l -> List.filter is_decimal l = l.
Proof.
  induction 1 as [|c l Hc _ IH]; simpl; [reflexivity|].
  rewrite Hc, IH. reflexivity.
Qed.

Lemma group0_match pos stop :
  match_at s pos = Some stop ->
  group0 s (pos, stop) = take (count_digits (drop pos s)) (drop pos s) /\
  drop pos s = group0 s (pos, stop) ++ drop stop s.
Proof.
  intros [Hn ->]%match_at_stop. unfold group0. simpl.
  replace (pos + count_digits (drop pos s) - pos)
    with (count_digits (drop pos s)) by lia.
  split; [reflexivity|].
  rewrite <- (drop_drop s), take_drop. reflexivity.
Qed.

Lemma group0_digits m :
  In m (finditer s) ->
  group0 s m <> [] /\ Forall (fun c => is_decimal c = true) (group0 s m).
Proof.
  destruct m as [i j]. intros [_ Hrun]%finditer_from_run.
  apply match_at_run in Hrun.
  destruct (group0_match _ _ Hrun) as [-> _].
  apply match_at_stop in Hrun as [Hn _].
  split; [|apply take_count_digits].
  intros Hnil. apply (f_equal length) in Hnil. simpl in Hnil.
  rewrite length_take in Hnil.
  assert (count_digits (drop i s) <= length (drop i s)); [|lia].
  clear. induction (drop i s) as [|c l IH]; simpl; [lia|].
  destruct (is_decimal c); lia.
Qed.

Lemma finditer_from_concat pos :
  scan_point s pos ->
  concat (map (group0 s) (finditer_from s pos))
  = List.filter is_decimal (drop pos s).
Proof.
  funelim (finditer_from s pos); intros Hpt.
  - rewrite drop_ge by lia. reflexivity.
  - destruct (group0_match _ _ Heq) as [Hg Hsplit].
    destruct (match_at_stop _ _ Heq) as [Hn Hstop].
    replace (Nat.max stop (S pos)) with stop in * by lia.
    simpl. rewrite H, Hsplit, List.filter_app.
    + f_equal. symmetry. rewrite Hg. apply filter_all, take_count_digits.
    + intros p _ _. rewrite Hstop. apply digit_at_run_end.
  - assert (digit_at s pos = false) as Hd.
    { rewrite match_at_eq in Heq.
      destruct (lookbehind_not_digit s pos) eqn:Hb.
      - destruct (Nat.ltb_spec 0 (count_digits (drop pos s))) as [|H0];
          [discriminate|].
        pose proof (digit_at_run_end s pos) as Hend.
        replace (count_digits (drop pos s)) with 0 in Hend by lia.
        rewrite Nat.add_0_r in Hend. exact Hend.
      - destruct pos as [|p]; [discriminate|]. simpl in Hb.
        apply negb_false_iff in Hb. apply (Hpt p eq_refl Hb). }
    rewrite H.
    + unfold digit_at in Hd. destruct (s !! pos) as [c|] eqn:Hc.
      * rewrite (drop_S _ _ _ Hc). simpl. rewrite Hd. reflexivity.
      * apply lookup_ge_None in Hc. rewrite !drop_ge by lia. reflexivity.
    + intros p [= <-] Hp. congruence.
Qed.
End TokenFacts.

(** ** ASCII input *)

Lemma decimal_zeros_ascii (c : N) :
  find (in_block c) decimal_zeros
  = (if in_block c 48 then Some 48%N
     else find (in_block c) (tail decimal_zeros)) /\
  forallb (fun zero => (128 <=? zero)%N) (tail decimal_zeros) = true.
Proof. split; reflexivity. Qed.

Lemma find_in_block_high (c : N) (zeros : list N) :
  (c < 128)%N -> forallb (fun zero => (128 <=? zero)%N) zeros = true ->
  find (in_block c) zeros = None.
Proof.
  intros Hc. induction zeros as [|zero zeros IH]; simpl; [reflexivity|].
  intros [Hz Hrest]%andb_true_iff. apply N.leb_le in Hz.
  unfold in_block at 1.
  destruct (N.leb_spec zero c); [lia|]. simpl. apply IH, Hrest.
Qed.

(** Below 128 the decimal digits are the ten ASCII digits, each with its
    own value. *)
Lemma decimal_value_ascii (c : N) :
  (c < 128)%N ->
  decimal_value c = if is_ascii_digit c then Some (c - 48)%N else None.
Proof.
  intros Hc. unfold decimal_value.
  destruct (decimal_zeros_ascii c) as [-> Hhigh].
  rewrite (find_in_block_high c _ Hc Hhigh).
  unfold in_block, is_ascii_digit.
  destruct (N.leb_spec 48 c), (N.ltb_spec c (48 + 10)), (N.leb_spec c 57);
    simpl; try lia; reflexivity.
Qed.

Lemma is_decimal_ascii (c : N) :
  is_ascii c = true -> is_decimal c = is_ascii_digit c.
Proof.
  intros Hc%N.ltb_lt. unfold is_decimal. rewrite decimal_value_ascii by assumption.
  destruct (is_ascii_digit c); reflexivity.
Qed.

Lemma is_ascii_digit_decimal (c : N) :
  is_ascii_digit c = true -> is_decimal c = true.
Proof.
  intros Hc. rewrite is_decimal_ascii; [assumption|].
  unfold is_ascii_digit in Hc. unfold is_ascii.
  apply andb_true_iff in Hc as [_ Hc%N.leb_le]. apply N.ltb_lt. lia.
Qed.

Lemma group0_sublist (s : str) m c : In c (group0 s m) -> In c s.
Proof.
  unfold group0. intros Hc.
  rewrite <- (take_drop m.1 s). apply in_or_app. right.
  rewrite <- (take_drop (m.2 - m.1) (drop m.1 s)). apply in_or_app. left.
  exact Hc.
Qed.

(** ** The tokenizer: C1, C8, C9 *)

(** C1, as amended. The tokens of a string are its maximal digit runs, one
    token for each run and in the order of the runs, where a digit is
    what [\d] matches: a Unicode decimal digit. Each token's text is a
    non-empty range of such digits with no digit next to it on either
    side, and when the string is ASCII the digits are ASCII digits. *)
Theorem extract_number_tokens_maximal_runs (s : str) :
  exists runs : list (nat * nat),
    extract_number_tokens s
    = map (fun m => {| text := take (m.2 - m.1) (drop m.1 s) |}) runs /\
    StronglySorted apart runs /\
    (forall i j, In (i, j) runs <-> maximal_digit_run s i j) /\
    Forall (fun t => text t <> [] /\
                     Forall (fun c => is_decimal c = true) (text t))
           (extract_number_tokens s) /\
    (Forall (fun c => is_ascii c = true) s ->
     Forall (fun t => Forall (fun c => is_ascii_digit c = true) (text t))
            (extract_number_tokens s)).
Proof.
  exists (finditer s).
  assert (Forall (fun t => text t <> [] /\
                           Forall (fun c => is_decimal c = true) (text t))
                 (extract_number_tokens s)) as Hdigits.
  { unfold extract_number_tokens. apply Forall_map, Forall_forall.
    intros m Hm%list_elem_of_In. simpl. apply group0_digits, Hm. }
  split; [reflexivity|]. split; [apply finditer_from_apart|].
  split; [|split; [exact Hdigits|]].
  - intros i j. unfold finditer. rewrite finditer_from_run.
    split; [tauto|]. intros Hrun. split; [lia|assumption].
  - intros Hascii. unfold extract_number_tokens in *.
    rewrite Forall_map in Hdigits. apply Forall_map.
    eapply Forall_impl; [exact Hdigits|]. simpl. intros m [_ Hm].
    rewrite Forall_forall in *. intros c Hc.
    rewrite <- is_decimal_ascii; [apply Hm, Hc|].
    apply Hascii, list_elem_of_In, (group0_sublist s m), list_elem_of_In, Hc.
Qed.

Lemma extract_number_tokens_maximal_runs_sample :
  Forall (fun t => Forall (fun c => is_ascii_digit c = true) (text t))
         (extract_number_tokens sample_text).
Proof.
  destruct (extract_number_tokens_maximal_runs sample_text)
    as (runs & _ & _ & _ & _ & Hascii).
  apply Hascii. repeat constructor.
Defined.

(** C1 as stated fails on a digit that is not ASCII: ARABIC-INDIC DIGIT
    THREE alone is a token. *)
Lemma extract_number_tokens_arabic_indic :
  extract_number_tokens [0x663%N] = [ {| text := [0x663%N] |} ] /\
  ~ Forall (fun t => Forall (fun c => is_ascii_digit c = true) (text t))
           (extract_number_tokens [0x663%N]).
Proof.
  split; [vm_compute; reflexivity|].
  intros Hall. vm_compute in Hall.
  inversion Hall as [|t l Ht _]. inversion Ht as [|c l' Hc _]. discriminate.
Qed.

Lemma filter_decimal_ascii (s : list N) :
  Forall (fun c => is_ascii c = true) s ->
  List.filter is_decimal s = List.filter is_ascii_digit s.
Proof.
  induction 1 as [|c s Hc _ IH]; simpl; [reflexivity|].
  rewrite (is_decimal_ascii c Hc), IH. reflexivity.
Qed.

(** C9. The texts of the tokens, one after the other, are the decimal
    digits of the string in their order: tokenizing neither drops, repeats
    nor moves a digit. The digits are those [\d] matches, which in an ASCII
    string are the ASCII digits. *)
Theorem extract_number_tokens_digits (s : str) :
  concat (map text (extract_number_tokens s)) = List.filter is_decimal s /\
  (Forall (fun c => is_ascii c = true) s ->
   concat (map text (extract_number_tokens s)) = List.filter is_ascii_digit s).
Proof.
  assert (concat (map text (extract_number_tokens s)) = List.filter is_decimal s)
    as Hdigits.
  { unfold extract_number_tokens, finditer. rewrite map_map. simpl.
    rewrite finditer_from_concat; [reflexivity|].
    intros p [=]. }
  split; [exact Hdigits|].
  intros Hascii. rewrite Hdigits. apply filter_decimal_ascii, Hascii.
Qed.

Lemma extract_number_tokens_digits_sample :
  concat (map text (extract_number_tokens sample_text)) = lit "3564245".
Proof.
  destruct (extract_number_tokens_digits sample_text) as [_ Hascii].
  rewrite Hascii; [reflexivity|]. repeat constructor.
Defined.

(** The maximal runs of a string, in order, make one list only. *)
Lemma maximal_runs_unique (s : list N) (runs runs' : list (nat * nat)) :
  StronglySorted apart runs -> StronglySorted apart runs' ->
  (forall i j, In (i, j) runs <-> maximal_digit_run s i j) ->
  (forall i j, In (i, j) runs' <-> maximal_digit_run s i j) ->
  runs = runs'.
Proof.
  intros Hsorted Hsorted' Hruns Hruns'.
  assert (forall m, In m runs -> m.1 < m.2) as Hspan.
  { intros [i j] Hm. apply Hruns in Hm as [Hlt _]. exact Hlt. }
  assert (forall m, In m runs <-> In m runs') as Hsame.
  { intros [i j]. rewrite Hruns, Hruns'. reflexivity. }
  clear Hruns Hruns'. revert runs' Hsorted' Hsame.
  induction Hsorted as [|a runs Hsorted IH Ha]; intros runs' Hsorted' Hsame.
  - destruct runs' as [|b runs']; [reflexivity|].
    destruct (proj2 (Hsame b) (or_introl eq_refl)).
  - rewrite Forall_forall in Ha.
    destruct Hsorted' as [|b runs' Hsorted' Hb].
    { destruct (proj1 (Hsame a) (or_introl eq_refl)). }
    rewrite Forall_forall in Hb.
    pose proof (Hspan a (or_introl eq_refl)) as Hspan_a.
    assert (b.1 < b.2) as Hspan_b.
    { apply Hspan, Hsame. left. reflexivity. }
    assert (a = b) as <-.
    { destruct (proj1 (Hsame a) (or_introl eq_refl)) as [Heq|Hin]; [auto|].
      destruct (proj2 (Hsame b) (or_introl eq_refl)) as [Heq|Hin']; [auto|].
      apply list_elem_of_In, Hb in Hin. apply list_elem_of_In, Ha in Hin'.
      unfold apart in *. lia. }
    f_equal. apply IH; [intros m Hm; apply Hspan; right; exact Hm|exact Hsorted'|].
    intros m. split; intros Hm.
    + destruct (proj1 (Hsame m) (or_intror Hm)) as [<-|Hin]; [|exact Hin].
      apply list_elem_of_In, Ha in Hm. unfold apart in Hm. lia.
    + destruct (proj2 (Hsame m) (or_intror Hm)) as [<-|Hin]; [|exact Hin].
      apply list_elem_of_In, Hb in Hm. unfold apart in Hm. lia.
Qed.

(** A text made of digits only is one match, from its first character to
    its last. *)
Lemma finditer_digit_run (s : list N) :
  digit_run s -> finditer s = [(0, length s)].
Proof.
  intros [Hne Hall].
  assert (forall k, k < length s ->
                    exists c, s !! k = Some c /\ is_decimal c = true) as Hdigit.
  { intros k Hk. destruct (lookup_lt_is_Some_2 s k Hk) as [c Hc].
    exists c. split; [exact Hc|].
    rewrite Forall_forall in Hall. apply Hall.
    apply list_elem_of_lookup. eauto. }
  assert (0 < length s) as Hlen by (destruct s; [congruence|simpl; lia]).
  apply (maximal_runs_unique s).
  - apply finditer_from_apart.
  - repeat constructor.
  - intros i j. unfold finditer. rewrite finditer_from_run.
    split; [tauto|]. intros Hrun. split; [lia|exact Hrun].
  - intros i j. split.
    + intros [[= <- <-]|[]]. split; [exact Hlen|]. split; [|split].
      * intros k Hk. apply Hdigit. lia.
      * intros p c [=].
      * intros c Hc. apply lookup_lt_Some in Hc. lia.
    + intros (Hlt & Hin & Hbefore & Hafter). left.
      assert (j <= length s) as Hj.
      { destruct (Hin (j - 1)) as (c & Hc & _); [lia|].
        apply lookup_lt_Some in Hc. lia. }
      assert (i = 0) as ->.
      { destruct i as [|p]; [reflexivity|exfalso].
        destruct (Hdigit p) as (c & Hc & Hd); [lia|].
        rewrite (Hbefore p c eq_refl Hc) in Hd. discriminate. }
      assert (j = length s) as ->; [|reflexivity].
      destruct (decide (j = length s)) as [|Hne']; [assumption|exfalso].
      destruct (Hdigit j) as (c & Hc & Hd); [lia|].
      rewrite (Hafter c Hc) in Hd. discriminate.
Qed.

Lemma tokens_of_digit_run (s : list N) :
  digit_run s -> extract_number_tokens s = [ {| text := s |} ].
Proof.
  intros Hrun. unfold extract_number_tokens.
  rewrite (finditer_digit_run s Hrun). simpl. unfold group0. simpl.
  rewrite Nat.sub_0_r, drop_0, firstn_all. reflexivity.
Qed.

(** C8. The tokens depend on the string alone: equal strings give equal
    token sequences, whatever the state of the process that tokenizes
    them, and tokenizing leaves the file system as it was. The sequence is
    the one the maximal runs of the string determine. *)
Theorem extract_number_tokens_deterministic
    {W : Type} `{FileSystem W} (s1 s2 : str) (st1 st2 : process W) :
  s1 = s2 ->
  extract_number_tokens s1 = extract_number_tokens s2 /\
  (tokenize s1 st1).1 = (tokenize s2 st2).1 /\
  world (tokenize s1 st1).2 = world st1 /\
  (forall runs : list (nat * nat),
     StronglySorted apart runs ->
     (forall i j, In (i, j) runs <-> maximal_digit_run s1 i j) ->
     extract_number_tokens s2 = map (fun m => {| text := group0 s1 m |}) runs).
Proof.
  intros <-. split; [reflexivity|]. split; [reflexivity|].
  split; [reflexivity|].
  intros runs Hsorted Hruns. unfold extract_number_tokens. f_equal.
  apply (maximal_runs_unique s1); [apply finditer_from_apart|exact Hsorted| |exact Hruns].
  intros i j. unfold finditer. rewrite finditer_from_run.
  split; [tauto|]. intros Hrun. split; [lia|exact Hrun].
Qed.

Lemma extract_number_tokens_deterministic_sample :
  extract_number_tokens sample_text = extract_number_tokens sample_text /\
  (tokenize sample_text (start sample_fs)).1
  = (tokenize sample_text
       {| world := (∅ : gmap (list string) node); trace := [EvTokenize] |}).1 /\
  world (tokenize sample_text (start sample_fs)).2 = world (start sample_fs) /\
  (forall runs : list (nat * nat),
     StronglySorted apart runs ->
     (forall i j, In (i, j) runs <-> maximal_digit_run sample_text i j) ->
     extract_number_tokens sample_text
     = map (fun m => {| text := group0 sample_text m |}) runs).
Proof.
  apply (extract_number_tokens_deterministic sample_text sample_text).
  reflexivity.
Defined.

(** ** The entry point: C7 *)

(** C7. When the input path is not an existing regular file, [main] raises
    [FileNotFoundError] having only asked the file system about that path:
    nothing was read or tokenized, no directory was made and no file was
    written, and the file system is as it was. *)
Theorem main_missing_input
    {W : Type} `{FileSystem W} (args : Namespace) (st : process W) :
  fs_is_file (world st) (input args) = false ->
  exists st',
    main args st = (Raise FileNotFoundError, st') /\
    world st' = world st /\
    trace st' = trace st ++ [EvIsFile (input args)].
Proof.
  intros Hmissing. exists (emit (EvIsFile (input args)) st).
  split; [|split; reflexivity].
  unfold main, bind, is_file. rewrite Hmissing. reflexivity.
Qed.

Lemma main_missing_input_sample :
  exists st',
    main {| input := ["missing.txt"]; output_dir := ["out"];
            encoding := "ascii"; tasks := ["count"] |} (start sample_fs)
    = (Raise FileNotFoundError, st') /\
    world st' = sample_fs /\
    trace st' = [EvIsFile ["missing.txt"]].
Proof.
  apply (main_missing_input
           {| input := ["missing.txt"]; output_dir := ["out"];
              encoding := "ascii"; tasks := ["count"] |} (start sample_fs)).
  vm_compute. reflexivity.
Defined.

(** ** Decimal strings *)

Lemma decimal_number_snoc (ds : list N) (c : N) :
  decimal_number (ds ++ [c]) = (10 * decimal_number ds + (c - 48))%N.
Proof. unfold decimal_number. rewrite fold_left_app. reflexivity. Qed.

Lemma digits_of_small (n : N) : (n < 10)%N -> digits_of n = [(48 + n)%N].
Proof.
  intros Hn. simp digits_of. destruct (decide (n < 10)%N); [reflexivity|lia].
Qed.

Lemma digits_of_large (n : N) :
  (10 <= n)%N -> digits_of n = digits_of (n / 10) ++ [(48 + n mod 10)%N].
Proof.
  intros Hn. rewrite digits_of_equation_1.
  destruct (decide (n < 10)%N); [lia|reflexivity].
Qed.

Lemma is_ascii_digit_spec (c : N) :
  is_ascii_digit c = true <-> (48 <= c <= 57)%N.
Proof.
  unfold is_ascii_digit. rewrite andb_true_iff, !N.leb_le. reflexivity.
Qed.

Lemma digits_of_spec (n : N) :
  decimal_number (digits_of n) = n /\
  Forall (fun c => is_ascii_digit c = true) (digits_of n) /\
  exists c l, digits_of n = c :: l /\ (c = 48%N -> n = 0%N /\ l = []).
Proof.
  induction n as [n IH] using (well_founded_induction N.lt_wf_0).
  destruct (decide (n < 10)%N) as [Hsmall|Hlarge].
  - rewrite digits_of_small by assumption. split; [|split].
    + unfold decimal_number. simpl. lia.
    + constructor; [|constructor]. apply is_ascii_digit_spec. lia.
    + exists (48 + n)%N, []. split; [reflexivity|]. intros Hc. split; [lia|reflexivity].
  - rewrite digits_of_large by lia.
    assert (n / 10 < n)%N as Hlt by (apply N.div_lt; lia).
    destruct (IH _ Hlt) as (Hnum & Hdig & c & l & Heq & Hzero).
    pose proof (N.mod_upper_bound n 10 ltac:(lia)) as Hmod.
    split; [|split; [|clear Hmod]].
    + rewrite decimal_number_snoc, Hnum.
      pose proof (N.div_mod n 10 ltac:(lia)) as Hn.
      revert Hn. generalize (n / 10)%N (n mod 10)%N. lia.
    + apply Forall_app. split; [assumption|].
      constructor; [|constructor]. apply is_ascii_digit_spec.
      revert Hmod. generalize (n mod 10)%N. lia.
    + exists c, (l ++ [(48 + n mod 10)%N]). rewrite Heq. split; [reflexivity|].
      intros Hc. destruct (Hzero Hc) as [Hdiv _].
      apply N.div_small_iff in Hdiv; lia.
Qed.

Lemma digits_of_canonical (n : N) : canonical_digits (digits_of n).
Proof.
  destruct (digits_of_spec n) as (_ & Hdig & c & l & Heq & Hzero).
  split; [rewrite Heq; discriminate|]. split; [assumption|].
  intros ds' Hds. rewrite Heq in Hds. injection Hds as -> ->.
  apply Hzero. reflexivity.
Qed.

(** [str] of an integer is its decimal string. *)
Lemma decimal_string_decimal (z : Z) : decimal_string_of z (decimal_string z).
Proof.
  exists (digits_of (Z.abs_N z)). split; [apply digits_of_canonical|].
  split; [apply digits_of_spec|].
  unfold decimal_string. destruct (z <? 0)%Z; reflexivity.
Qed.

(** A decimal string denotes one integer, and an integer has one decimal
    string. *)
Lemma canonical_digits_number (ds ds' : list N) :
  canonical_digits ds -> canonical_digits ds' ->
  decimal_number ds = decimal_number ds' -> ds = ds'.
Proof.
  intros Hds Hds' Hnum.
  assert (forall l : list N, canonical_digits l -> l = digits_of (decimal_number l))
    as Hcanon; [|rewrite (Hcanon ds), (Hcanon ds'), Hnum; auto].
  clear. intros l. induction l as [|c l IH] using rev_ind.
  - intros [Hnil _]. congruence.
  - intros (_ & Hdig & Hzero). rewrite decimal_number_snoc.
    apply Forall_app in Hdig as [Hdig Hc].
    apply Forall_inv, is_ascii_digit_spec in Hc.
    destruct l as [|d l].
    + change (decimal_number []) with 0%N.
      rewrite digits_of_small by lia. simpl app. f_equal. lia.
    + assert (canonical_digits (d :: l)) as Hcan.
      { split; [discriminate|]. split; [assumption|].
        intros ds' [= -> ->]. specialize (Hzero (ds' ++ [c]) eq_refl).
        destruct ds'; discriminate. }
      specialize (IH Hcan).
      assert (decimal_number (d :: l) <> 0)%N as Hpos.
      { intros Hz. rewrite Hz in IH. rewrite digits_of_small in IH by lia.
        injection IH as -> ->. specialize (Hzero [c] eq_refl). discriminate. }
      rewrite digits_of_large by lia.
      replace ((10 * decimal_number (d :: l) + (c - 48)) / 10)%N
        with (decimal_number (d :: l)).
      * rewrite <- IH. f_equal. f_equal.
        replace (10 * decimal_number (d :: l) + (c - 48))%N
          with ((c - 48) + decimal_number (d :: l) * 10)%N by lia.
        rewrite N.Div0.mod_add, N.mod_small; lia.
      * apply N.div_unique with (r := (c - 48)%N); lia.
Qed.

Lemma decimal_string_of_unique (z : Z) (out out' : list N) :
  decimal_string_of z out -> decimal_string_of z out' -> out = out'.
Proof.
  intros (ds & Hds & Hnum & ->) (ds' & Hds' & Hnum' & ->). f_equal.
  apply canonical_digits_number; congruence.
Qed.

(** ** The limit on the digits of a conversion *)

(** A number has at most [k] digits when it is below the [k]-th power of
    ten. *)
Lemma digits_of_length (n : N) (k : nat) :
  0 < k -> length (digits_of n) <= k <-> (n < 10 ^ N.of_nat k)%N.
Proof.
  revert k. induction n as [n IH] using (well_founded_induction N.lt_wf_0).
  intros k Hk. destruct (decide (n < 10)%N) as [Hsmall|Hlarge].
  - rewrite digits_of_small by assumption. simpl length.
    assert (10 ^ 1 <= 10 ^ N.of_nat k)%N by (apply N.pow_le_mono_r; lia).
    change (10 ^ 1)%N with 10%N in *. split; intros; lia.
  - rewrite digits_of_large, length_app by lia. simpl length.
    assert (n / 10 < n)%N as Hlt by (apply N.div_lt; lia).
    pose proof (N.div_mod n 10 ltac:(lia)) as Hn.
    pose proof (N.mod_upper_bound n 10 ltac:(lia)) as Hmod.
    destruct k as [|[|k]]; [lia| |].
    + change (10 ^ N.of_nat 1)%N with 10%N.
      destruct (digits_of_spec (n / 10)) as (_ & _ & c & l & -> & _).
      simpl length. split; intros; lia.
    + specialize (IH _ Hlt (S k) ltac:(lia)).
      replace (N.of_nat (S (S k))) with (N.succ (N.of_nat (S k))) by lia.
      rewrite N.pow_succ_r'. revert IH Hn Hmod.
      generalize (length (digits_of (n / 10))).
      generalize (n / 10)%N (n mod 10)%N (10 ^ N.of_nat (S k))%N.
      intros q r p len IH Hn Hmod. split; intros Hle.
      * assert (q < p)%N by (apply IH; lia). nia.
      * assert (len <= S k); [|lia]. apply IH. nia.
Qed.

Lemma within_limit_digits (z : Z) :
  within_limit z <-> length (digits_of (Z.abs_N z)) <= max_str_digits.
Proof.
  rewrite digits_of_length by (unfold max_str_digits; lia).
  unfold within_limit.
  replace (Z.of_nat max_str_digits) with (Z.of_N (N.of_nat max_str_digits)) by lia.
  change 10%Z with (Z.of_N 10). rewrite <- N2Z.inj_pow, <- N2Z.inj_abs_N. lia.
Qed.

(** [str] writes the decimal string of the integers within the limit and
    raises [ValueError] on the others. *)
Lemma py_str_within (z : Z) : within_limit z -> py_str z = Ok (decimal_string z).
Proof.
  intros Hz%within_limit_digits. unfold py_str.
  destruct (Nat.ltb_spec max_str_digits (length (digits_of (Z.abs_N z))));
    [lia|reflexivity].
Qed.

Lemma py_str_beyond (z : Z) : ~ within_limit z -> py_str z = Raise ValueError.
Proof.
  intros Hz. rewrite within_limit_digits in Hz. unfold py_str.
  destruct (Nat.ltb_spec max_str_digits (length (digits_of (Z.abs_N z))));
    [reflexivity|lia].
Qed.

Lemma py_str_Ok (z : Z) (out : list N) :
  py_str z = Ok out <-> within_limit z /\ out = decimal_string z.
Proof.
  rewrite within_limit_digits. unfold py_str.
  destruct (Nat.ltb_spec max_str_digits (length (digits_of (Z.abs_N z)))).
  - split; [discriminate|]. intros [? _]. lia.
  - split; [intros [= <-]; auto|]. intros [_ ->]. reflexivity.
Qed.


Lemma within_limit_dec (z : Z) : {within_limit z} + {~ within_limit z}.
Proof. unfold within_limit. apply Z_lt_dec. Qed.

(** ** [int] on the text of a token *)

Lemma decimal_value_bound (c d : N) :
  decimal_value c = Some d -> (d < 10)%N.
Proof.
  unfold decimal_value.
  destruct (find (in_block c) decimal_zeros) as [zero|] eqn:Hfind; [|discriminate].
  apply find_some in Hfind as [_ Hblock]. intros [= <-].
  unfold in_block in Hblock.
  apply andb_true_iff in Hblock as [?%N.leb_le ?%N.ltb_lt]. lia.
Qed.

Lemma unicode_spaces_not_decimal :
  forallb (fun c => negb (is_decimal c)) unicode_spaces = true.
Proof. vm_compute. reflexivity. Qed.

Lemma is_unicode_space_not_decimal (c : N) :
  is_decimal c = true -> is_unicode_space c = false.
Proof.
  intros Hc. destruct (is_unicode_space c) eqn:Hs; [|reflexivity].
  unfold is_unicode_space in Hs.
  apply existsb_exists in Hs as (x & Hx & ->%N.eqb_eq).
  pose proof unicode_spaces_not_decimal as Hall.
  rewrite forallb_forall in Hall. specialize (Hall _ Hx).
  rewrite Hc in Hall. discriminate.
Qed.

(** A decimal digit is read as the ASCII digit of its value. *)
Lemma to_ascii_char_decimal (c : N) :
  is_decimal c = true ->
  is_ascii_digit (to_ascii_char c) = true /\
  (to_ascii_char c - 48)%N = default 0%N (decimal_value c).
Proof.
  intros Hc. unfold to_ascii_char. destruct (N.ltb_spec c 127) as [Hlow|Hhigh].
  - unfold is_decimal in Hc. rewrite decimal_value_ascii in * by lia.
    destruct (is_ascii_digit c); [|discriminate]. auto.
  - rewrite (is_unicode_space_not_decimal c Hc).
    unfold is_decimal in Hc.
    destruct (decimal_value c) as [d|] eqn:Hd; [|discriminate].
    apply decimal_value_bound in Hd. simpl. split; [|lia].
    apply is_ascii_digit_spec. lia.
Qed.

Lemma parse_digits_all (l : list N) (acc : N) (digits : nat) (prev : N) :
  l <> [] -> Forall (fun c => is_ascii_digit c = true) l ->
  parse_digits acc digits prev l
  = Some (fold_left (fun acc c => (10 * acc + (c - 48))%N) l acc,
          digits + length l, []).
Proof.
  revert acc digits prev. induction l as [|c l IH]; intros acc digits prev Hne Hall;
    [congruence|].
  apply Forall_cons in Hall as [Hc Hall]. simpl. rewrite Hc.
  destruct l as [|c' l].
  - simpl. apply is_ascii_digit_spec in Hc.
    destruct (N.eqb_spec c 95); [lia|]. do 2 f_equal. f_equal. lia.
  - rewrite IH by (discriminate || assumption). do 2 f_equal. f_equal.
    simpl length. lia.
Qed.

(** The number [parse_digits] reads has as many digits as it counts. *)
Lemma parse_digits_bound (l : list N) (acc : N) (digits : nat) (prev : N)
    (n : N) (digits' : nat) (rest : list N) :
  parse_digits acc digits prev l = Some (n, digits', rest) ->
  (acc < 10 ^ N.of_nat digits)%N -> (n < 10 ^ N.of_nat digits')%N.
Proof.
  revert acc digits prev. induction l as [|c l IH]; intros acc digits prev; simpl.
  - destruct (prev =? 95)%N; [discriminate|]. intros [= <- <- <-]. auto.
  - destruct (is_ascii_digit c) eqn:Hc.
    + intros Hparse Hacc. apply (IH _ _ _ Hparse).
      apply is_ascii_digit_spec in Hc.
      replace (N.of_nat (S digits)) with (N.succ (N.of_nat digits)) by lia.
      rewrite N.pow_succ_r'. revert Hacc.
      generalize (10 ^ N.of_nat digits)%N. intros p Hacc. lia.
    + destruct (c =? 95)%N.
      * destruct (prev =? 95)%N; [discriminate|]. apply IH.
      * destruct (prev =? 95)%N; [discriminate|]. intros [= <- <- <-]. auto.
Qed.

Lemma decimal_number_to_ascii (s : list N) (acc : N) :
  Forall (fun c => is_decimal c = true) s ->
  fold_left (fun acc c => (10 * acc + (c - 48))%N) (map to_ascii_char s) acc
  = fold_left (fun acc c => (10 * acc + default 0 (decimal_value c))%N) s acc.
Proof.
  intros Hall. revert acc. induction Hall as [|c s Hc _ IH]; intros acc;
    [reflexivity|].
  simpl. destruct (to_ascii_char_decimal c Hc) as [_ ->]. apply IH.
Qed.

Lemma parse_number_digits (negative : bool) (l : list N) :
  l <> [] -> Forall (fun c => is_ascii_digit c = true) l ->
  parse_number negative l
  = if max_str_digits <? length l then Raise ValueError
    else Ok (if negative then - Z.of_N (decimal_number l)
             else Z.of_N (decimal_number l))%Z.
Proof.
  intros Hne Hall. unfold parse_number.
  destruct l as [|c l]; [congruence|].
  rewrite (Forall_inv Hall), parse_digits_all by assumption. reflexivity.
Qed.

Lemma ascii_digit_not_sign (c : N) (l : list N) :
  is_ascii_digit c = true ->
  lstrip (c :: l) = c :: l /\ parse_sign (c :: l) = (false, c :: l).
Proof.
  intros Hc%is_ascii_digit_spec. unfold parse_sign. simpl lstrip.
  unfold is_ascii_space.
  destruct (N.leb_spec 9 c), (N.leb_spec c 13), (N.eqb_spec c 32),
    (N.eqb_spec c 45), (N.eqb_spec c 43); simpl; try lia; auto.
Qed.

(** [int] reads a run of decimal digits as the number they denote, when
    the run is no longer than the limit, and raises [ValueError] when it
    is. *)
Lemma py_int_digit_run (s : list N) :
  digit_run s ->
  py_int s = if max_str_digits <? length s then Raise ValueError
             else Ok (Z.of_N (digits_number s)).
Proof.
  intros [Hne Hall]. unfold py_int.
  assert (Forall (fun c => is_ascii_digit c = true) (map to_ascii_char s))
    as Hascii.
  { apply Forall_map. eapply Forall_impl; [exact Hall|].
    intros c Hc. apply to_ascii_char_decimal, Hc. }
  pose proof (decimal_number_to_ascii s 0 Hall) as Hnum.
  fold (decimal_number (map to_ascii_char s)) in Hnum.
  fold (digits_number s) in Hnum. rewrite <- Hnum.
  rewrite <- (length_map to_ascii_char s).
  destruct (map to_ascii_char s) as [|c l] eqn:Hmap.
  { destruct s; [congruence|discriminate]. }
  destruct (ascii_digit_not_sign c l (Forall_inv Hascii)) as [-> ->].
  apply parse_number_digits; [discriminate|exact Hascii].
Qed.

(** [int] only returns integers within the limit. *)
Lemma py_int_within (s : list N) (z : Z) : py_int s = Ok z -> within_limit z.
Proof.
  unfold py_int, parse_number. destruct (parse_sign _) as [negative l].
  destruct l as [|c l]; [discriminate|].
  destruct (is_ascii_digit c); [|discriminate].
  destruct (parse_digits 0 0 0 (c :: l)) as [[[n digits] rest]|] eqn:Hparse;
    [|discriminate].
  destruct (Nat.ltb_spec max_str_digits digits) as [|Hdigits]; [discriminate|].
  destruct (forallb is_ascii_space rest); [|discriminate].
  intros [= <-]. unfold within_limit.
  pose proof (parse_digits_bound _ _ _ _ _ _ _ Hparse ltac:(simpl; lia)) as Hn.
  assert (10 ^ N.of_nat digits <= 10 ^ N.of_nat max_str_digits)%N as Hpow
    by (apply N.pow_le_mono_r; lia).
  replace (Z.of_nat max_str_digits) with (Z.of_N (N.of_nat max_str_digits)) by lia.
  change 10%Z with (Z.of_N 10). rewrite <- N2Z.inj_pow.
  destruct negative; lia.
Qed.

Lemma to_ascii_char_ascii_digit (l : list N) :
  Forall (fun c => is_ascii_digit c = true) l -> map to_ascii_char l = l.
Proof.
  induction 1 as [|c l Hc%is_ascii_digit_spec _ IH]; simpl; [reflexivity|].
  rewrite IH. unfold to_ascii_char.
  destruct (N.ltb_spec c 127); [reflexivity|lia].
Qed.

(** [int] reads back the decimal string of an integer within the limit,
    and no other. *)
Lemma py_int_decimal_string_cases (z : Z) :
  py_int (decimal_string z)
  = if max_str_digits <? length (digits_of (Z.abs_N z)) then Raise ValueError
    else Ok z.
Proof.
  destruct (digits_of_spec (Z.abs_N z)) as (Hnum & Hall & c & l & Heq & _).
  unfold decimal_string, py_int. destruct (Z.ltb_spec z 0) as [Hneg|Hpos].
  - change (map to_ascii_char (45%N :: digits_of (Z.abs_N z)))
      with (45%N :: map to_ascii_char (digits_of (Z.abs_N z))).
    rewrite (to_ascii_char_ascii_digit _ Hall).
    change (parse_sign (lstrip (45%N :: digits_of (Z.abs_N z))))
      with (true, digits_of (Z.abs_N z)).
    cbv beta iota.
    rewrite parse_number_digits, Hnum
      by (assumption || (rewrite Heq; discriminate)).
    destruct (max_str_digits <? _); [reflexivity|]. f_equal. lia.
  - rewrite (to_ascii_char_ascii_digit _ Hall).
    rewrite Heq in Hall |- *.
    destruct (ascii_digit_not_sign c l (Forall_inv Hall)) as [-> ->].
    rewrite <- Heq in Hall |- *.
    cbv beta iota.
    rewrite parse_number_digits, Hnum
      by (assumption || (rewrite Heq; discriminate)).
    destruct (max_str_digits <? _); [reflexivity|]. f_equal. lia.
Qed.

Lemma py_int_decimal_string (z : Z) :
  within_limit z -> py_int (decimal_string z) = Ok z.
Proof.
  intros Hz%within_limit_digits. rewrite py_int_decimal_string_cases.
  destruct (Nat.ltb_spec max_str_digits (length (digits_of (Z.abs_N z))));
    [lia|reflexivity].
Qed.

Lemma py_int_decimal_string_Ok (z z' : Z) :
  py_int (decimal_string z) = Ok z' -> z' = z /\ within_limit z.
Proof.
  rewrite py_int_decimal_string_cases, within_limit_digits.
  destruct (Nat.ltb_spec max_str_digits (length (digits_of (Z.abs_N z))));
    [discriminate|].
  intros [= <-]. auto.
Qed.

(** [str] and [int] are inverse of each other on what [str] returns. *)
Lemma py_int_py_str (z : Z) (out : list N) : py_str z = Ok out -> py_int out = Ok z.
Proof. intros [Hz ->]%py_str_Ok. apply py_int_decimal_string, Hz. Qed.

Lemma value_digit_run (t : NumberToken) :
  digit_run (text t) ->
  value t = if max_str_digits <? length (text t) then Raise ValueError
            else Ok (Z.of_N (digits_number (text t))).
Proof. apply py_int_digit_run. Qed.

Lemma value_short_run (t : NumberToken) :
  digit_run (text t) -> length (text t) <= max_str_digits ->
  value t = Ok (Z.of_N (digits_number (text t))).
Proof.
  intros Hrun Hlen. rewrite (value_digit_run t Hrun).
  destruct (Nat.ltb_spec max_str_digits (length (text t))); [lia|reflexivity].
Qed.

Lemma value_long_run (t : NumberToken) :
  digit_run (text t) -> max_str_digits < length (text t) ->
  value t = Raise ValueError.
Proof.
  intros Hrun Hlen. rewrite (value_digit_run t Hrun).
  destruct (Nat.ltb_spec max_str_digits (length (text t))); [reflexivity|lia].
Qed.



(** A run of digits denotes a number below the power of ten of its
    length, and at least its first digit times the power of ten of the
    length of the rest. *)
Lemma digits_number_bound (s : list N) :
  (digits_number s < 10 ^ N.of_nat (length s))%N.
Proof.
  unfold digits_number.
  assert (forall acc,
            (fold_left (fun acc c => 10 * acc + default 0 (decimal_value c)) s acc
             < (acc + 1) * 10 ^ N.of_nat (length s))%N) as Hgen;
    [|specialize (Hgen 0%N); lia].
  induction s as [|c s IH]; intros acc.
  - simpl. lia.
  - simpl fold_left. eapply N.lt_le_trans; [apply IH|].
    assert (default 0 (decimal_value c) < 10)%N as Hc.
    { destruct (decimal_value c) as [d|] eqn:Hd; simpl; [|lia].
      apply (decimal_value_bound c d Hd). }
    replace (N.of_nat (length (c :: s))) with (N.succ (N.of_nat (length s)))
      by (simpl length; lia).
    rewrite N.pow_succ_r'. revert Hc.
    generalize (default 0%N (decimal_value c)) (10 ^ N.of_nat (length s))%N.
    intros d p Hd. nia.
Qed.

Lemma digits_number_from (s : list N) (acc : N) :
  (acc * 10 ^ N.of_nat (length s)
   <= fold_left (fun acc c => 10 * acc + default 0 (decimal_value c)) s acc)%N.
Proof.
  revert acc. induction s as [|c s IH]; intros acc.
  - simpl. lia.
  - simpl fold_left. eapply N.le_trans; [|apply IH].
    replace (N.of_nat (length (c :: s))) with (N.succ (N.of_nat (length s)))
      by (simpl length; lia).
    rewrite N.pow_succ_r'.
    generalize (default 0%N (decimal_value c)) (10 ^ N.of_nat (length s))%N.
    intros d p. nia.
Qed.


Lemma replicate_digit_run (n : nat) (c : N) :
  0 < n -> is_decimal c = true -> digit_run (replicate n c).
Proof.
  intros Hn Hc. split.
  - intros Hnil. apply (f_equal length) in Hnil.
    rewrite length_replicate in Hnil. simpl in Hnil. lia.
  - apply Forall_replicate. exact Hc.
Qed.

(** The tokens of a text are runs of digits. *)
Lemma tokenizer_digit_runs (s : list N) :
  Forall (fun t => digit_run (text t)) (extract_number_tokens s).
Proof.
  unfold extract_number_tokens. apply Forall_map, Forall_forall.
  intros m Hm%list_elem_of_In. apply group0_digits, Hm.
Qed.

(** ** Values of a token sequence *)

Lemma result_map_Forall2 {A B} (f : A -> result B) (l : list A) (l' : list B) :
  Forall2 (fun x y => f x = Ok y) l l' <-> result_map f l = Ok l'.
Proof.
  split.
  - induction 1 as [|x y l l' Hxy _ IH]; simpl; [reflexivity|].
    rewrite Hxy, IH. reflexivity.
  - revert l'. induction l as [|x l IH]; simpl; intros l'.
    + intros [= <-]. constructor.
    + destruct (f x) as [y|e] eqn:Hx; simpl; [|discriminate].
      destruct (result_map f l) as [ys|e]; simpl; [|discriminate].
      intros [= <-]. constructor; [assumption|]. apply IH. reflexivity.
Qed.

(** [int] raises nothing but [ValueError]. *)
Lemma py_int_raises (s : list N) (e : exn) : py_int s = Raise e -> e = ValueError.
Proof.
  unfold py_int, parse_number. destruct (parse_sign _) as [negative l].
  destruct l as [|c l]; [congruence|].
  destruct (is_ascii_digit c); [|congruence].
  destruct (parse_digits _ _ _ _) as [[[n digits] rest]|]; [|congruence].
  destruct (max_str_digits <? digits); [congruence|].
  destruct (forallb _ rest); congruence.
Qed.

(** The values of a sequence of tokens are within the limit. *)
Lemma values_within (tokens : list NumberToken) (values : list Z) :
  result_map value tokens = Ok values -> Forall within_limit values.
Proof.
  intros Hvalues%result_map_Forall2.
  induction Hvalues as [|t v tokens values Ht _ IH]; constructor; [|exact IH].
  apply (py_int_within _ _ Ht).
Qed.

Lemma result_map_value_raises (tokens : list NumberToken) (e : exn) :
  result_map value tokens = Raise e ->
  e = ValueError /\ exists t, In t tokens /\ value t = Raise ValueError.
Proof.
  induction tokens as [|t tokens IH]; simpl; [discriminate|].
  destruct (value t) as [v|e'] eqn:Ht; simpl.
  - destruct (result_map value tokens) as [vs|e'']; simpl; [discriminate|].
    intros [= <-]. destruct (IH eq_refl) as (-> & t' & Hin & Ht').
    split; [reflexivity|]. exists t'. auto.
  - intros [= <-]. pose proof (py_int_raises _ _ Ht) as ->.
    split; [reflexivity|]. exists t. auto.
Qed.


Lemma py_sum_foldr (l : list Z) : py_sum l = foldr Z.add 0%Z l.
Proof.
  unfold py_sum.
  assert (forall a, fold_left Z.add l a = (a + foldr Z.add 0 l)%Z) as Hgen.
  { induction l as [|x l IH]; intros a; simpl; [lia|]. rewrite IH. lia. }
  rewrite Hgen. lia.
Qed.

(** The maximum [max] returns is an item, and no item is greater. *)
Lemma py_max_greatest (x : Z) (l : list Z) :
  exists m, py_max (x :: l) = Ok m /\ In m (x :: l) /\
            forall v, In v (x :: l) -> (v <= m)%Z.
Proof.
  simpl py_max. eexists. split; [reflexivity|].
  revert x. induction l as [|y l IH]; intros x; simpl fold_left.
  - split; [left; reflexivity|]. intros v [<-|[]]. lia.
  - destruct (IH (if (x <? y)%Z then y else x)) as [Hin Hmax].
    split.
    + destruct Hin as [Hin|Hin]; [|right; right; exact Hin].
      rewrite <- Hin. destruct (x <? y)%Z; simpl; auto.
    + intros v [<-|[<-|Hv]].
      * specialize (Hmax _ (or_introl eq_refl)).
        destruct (Z.ltb_spec x y); lia.
      * specialize (Hmax _ (or_introl eq_refl)).
        destruct (Z.ltb_spec x y); lia.
      * apply Hmax. right. exact Hv.
Qed.

(** The loop of [longest_token]: the token it ends with is the first of
    the greatest length among the current one and the candidates. *)
Lemma longest_loop (others : list NumberToken) (first : NumberToken) :
  exists i t,
    fold_left longer others first = t /\
    (first :: others) !! i = Some t /\
    (forall t', In t' (first :: others) -> token_length t' <= token_length t) /\
    (forall j t', j < i -> (first :: others) !! j = Some t' ->
                  token_length t' < token_length t).
Proof.
  revert first. induction others as [|c others IH]; intros first.
  - exists 0, first. simpl. split; [reflexivity|]. split; [reflexivity|].
    split; [intros t' [<-|[]]; lia|]. intros j t' Hj. lia.
  - simpl fold_left.
    assert (longer first c = c /\ token_length first < token_length c \/
            longer first c = first /\ token_length c <= token_length first)
      as [[-> Hlt]|[-> Hge]].
    { unfold longer. destruct (Nat.ltb_spec (token_length first) (token_length c)); auto. }
    + destruct (IH c) as (i & t & Hfold & Hi & Hmax & Hfirst).
      exists (S i), t. split; [exact Hfold|]. split; [exact Hi|]. split.
      * intros t' [<-|Hin]; [|apply Hmax, Hin].
        specialize (Hmax c (or_introl eq_refl)). lia.
      * intros j t' Hj Hlook. destruct j as [|j].
        -- injection Hlook as <-. specialize (Hmax c (or_introl eq_refl)). lia.
        -- apply (Hfirst j); [lia|exact Hlook].
    + destruct (IH first) as (i & t & Hfold & Hi & Hmax & Hfirst).
      destruct i as [|i].
      * exists 0, t. split; [exact Hfold|]. split; [exact Hi|]. split.
        -- intros t' [<-|[<-|Hin]].
           ++ apply Hmax. left. reflexivity.
           ++ injection Hi as <-. lia.
           ++ apply Hmax. right. exact Hin.
        -- intros j t' Hj. lia.
      * exists (S (S i)), t. split; [exact Hfold|]. split; [exact Hi|]. split.
        -- intros t' [<-|[<-|Hin]].
           ++ apply Hmax. left. reflexivity.
           ++ specialize (Hfirst 0 first ltac:(lia) eq_refl). lia.
           ++ apply Hmax. right. exact Hin.
        -- intros j t' Hj Hlook. destruct j as [|[|j]].
           ++ injection Hlook as <-. apply (Hfirst 0); [lia|reflexivity].
           ++ injection Hlook as <-.
              specialize (Hfirst 0 first ltac:(lia) eq_refl). lia.
           ++ apply (Hfirst (S j)); [lia|exact Hlook].
Qed.

(** ** The analyses: C2, C3, C4, C5 *)

(** C5. [count_tokens] returns the decimal string of the number of tokens,
    which is "0" when there is none. *)
Theorem count_tokens_length (tokens : list NumberToken) :
  (exists out, count_tokens tokens = Ok out /\
               decimal_string_of (Z.of_nat (length tokens)) out) /\
  count_tokens [] = Ok (lit "0").
Proof.
  split; [|reflexivity].
  exists (str_len (length tokens)). split; [reflexivity|].
  apply decimal_string_decimal.
Qed.

Lemma result_map_value_In_raises (tokens : list NumberToken) (t : NumberToken)
    (e : exn) :
  In t tokens -> value t = Raise e ->
  result_map value tokens = Raise ValueError.
Proof.
  intros Hin Ht. induction tokens as [|t' tokens IH]; [destruct Hin|].
  simpl. destruct (value t') as [v|e'] eqn:Ht'; simpl.
  - destruct Hin as [->|Hin]; [congruence|]. rewrite (IH Hin). reflexivity.
  - rewrite (py_int_raises _ _ Ht'). reflexivity.
Qed.

Lemma sum_tokens_values (tokens : list NumberToken) (values : list Z) :
  result_map value tokens = Ok values ->
  sum_tokens tokens = py_str (py_sum values).
Proof. intros Hvalues. unfold sum_tokens. rewrite Hvalues. reflexivity. Qed.

Lemma max_token_values (tokens : list NumberToken) (values : list Z) :
  tokens <> [] -> result_map value tokens = Ok values ->
  exists m, py_max values = Ok m /\ In m values /\
            (forall v, In v values -> (v <= m)%Z) /\
            max_token tokens = Ok (decimal_string m).
Proof.
  intros Hne Hvalues. pose proof (values_within _ _ Hvalues) as Hwithin.
  pose proof Hvalues as Hall%result_map_Forall2.
  destruct Hall as [|t v tokens values Ht Hrest]; [congruence|].
  destruct (py_max_greatest v values) as (m & Hm & Hin & Hmax).
  exists m. split; [exact Hm|]. split; [exact Hin|]. split; [exact Hmax|].
  unfold max_token. rewrite Hvalues. unfold result_bind at 1. cbv beta iota.
  rewrite Hm. simpl. apply py_str_within.
  rewrite Forall_forall in Hwithin. apply Hwithin, list_elem_of_In, Hin.
Qed.

Lemma sum_tokens_In_raises (tokens : list NumberToken) (t : NumberToken)
    (e : exn) :
  In t tokens -> value t = Raise e -> sum_tokens tokens = Raise ValueError.
Proof.
  intros Hin Ht. unfold sum_tokens.
  rewrite (result_map_value_In_raises _ _ _ Hin Ht). reflexivity.
Qed.

Lemma max_token_In_raises (tokens : list NumberToken) (t : NumberToken)
    (e : exn) :
  In t tokens -> value t = Raise e -> max_token tokens = Raise ValueError.
Proof.
  intros Hin Ht. unfold max_token.
  destruct tokens as [|t0 tokens]; [destruct Hin|].
  rewrite (result_map_value_In_raises _ _ _ Hin Ht). reflexivity.
Qed.









(** The first token of the greatest length is one token only. *)
Lemma first_longest_unique (tokens : list NumberToken) (i i' : nat)
    (t t' : NumberToken) :
  tokens !! i = Some t -> tokens !! i' = Some t' ->
  (forall u, In u tokens -> length (text u) <= length (text t)) ->
  (forall u, In u tokens -> length (text u) <= length (text t')) ->
  (forall j u, j < i -> tokens !! j = Some u -> length (text u) < length (text t)) ->
  (forall j u, j < i' -> tokens !! j = Some u ->
               length (text u) < length (text t')) ->
  t = t'.
Proof.
  intros Hi Hi' Hmax Hmax' Hfirst Hfirst'.
  assert (In t tokens) as Ht
    by (apply list_elem_of_In, list_elem_of_lookup; eauto).
  assert (In t' tokens) as Ht'
    by (apply list_elem_of_In, list_elem_of_lookup; eauto).
  destruct (Nat.lt_trichotomy i i') as [Hlt|[->|Hlt]].
  - pose proof (Hfirst' i t Hlt Hi). pose proof (Hmax t' Ht'). lia.
  - congruence.
  - pose proof (Hfirst i' t' Hlt Hi'). pose proof (Hmax' t Ht). lia.
Qed.

(** C2. [longest_token] returns "BRAK" without a token; otherwise the text
    of the first token of the greatest number of digits, a space, and the
    decimal string of that number. *)
Theorem longest_token_first_longest (tokens : list NumberToken) :
  longest_token [] = Ok BRAK /\
  (forall i t,
     tokens !! i = Some t ->
     (forall t', In t' tokens -> length (text t') <= length (text t)) ->
     (forall j t', j < i -> tokens !! j = Some t' ->
                   length (text t') < length (text t)) ->
     exists digits,
       decimal_string_of (Z.of_nat (length (text t))) digits /\
       longest_token tokens = Ok (text t ++ lit " " ++ digits)) /\
  (tokens <> [] ->
   exists i t,
     tokens !! i = Some t /\
     (forall t', In t' tokens -> length (text t') <= length (text t)) /\
     (forall j t', j < i -> tokens !! j = Some t' ->
                   length (text t') < length (text t))).
Proof.
  split; [reflexivity|]. split.
  - intros i t Hi Hmax Hfirst.
    destruct tokens as [|first others]; [discriminate|].
    destruct (longest_loop others first) as (i0 & t0 & Hfold & Hi0 & Hmax0 & Hfirst0).
    unfold token_length in Hmax0, Hfirst0.
    assert (t0 = t) as -> by (eapply first_longest_unique; eassumption).
    exists (str_len (length (text t))).
    split; [apply decimal_string_decimal|].
    unfold longest_token. rewrite Hfold. reflexivity.
  - intros Hne. destruct tokens as [|first others]; [congruence|].
    destruct (longest_loop others first) as (i & t & _ & Hi & Hmax & Hfirst).
    unfold token_length in Hmax, Hfirst. eauto.
Qed.

Lemma longest_token_first_longest_sample :
  longest_token (tokens_of_texts ["12"; "345"; "678"]) = Ok (lit "345 3").
Proof.
  destruct (longest_token_first_longest (tokens_of_texts ["12"; "345"; "678"]))
    as (_ & Hlongest & _).
  destruct (Hlongest 1 {| text := lit "345" |}) as (digits & Hdigits & ->).
  - reflexivity.
  - intros t' [<-|[<-|[<-|[]]]]; simpl; lia.
  - intros j t' Hj. destruct j as [|j]; [|lia]. intros [= <-]. simpl. lia.
  - rewrite (decimal_string_of_unique 3 digits (lit "3") Hdigits
               (decimal_string_decimal 3)).
    reflexivity.
Defined.

(** ** Totality: C6 *)









(** ** Order: C10 *)

Lemma values_permutation (tokens tokens' : list NumberToken) (values : list Z) :
  Permutation tokens tokens' ->
  Forall2 (fun t v => value t = Ok v) tokens values ->
  exists values',
    Permutation values values' /\
    Forall2 (fun t v => value t = Ok v) tokens' values'.
Proof.
  intros Hperm. revert values.
  induction Hperm as [|t l l' _ IH|t t' l|l l' l'' _ IH _ IH']; intros values Hv.
  - exists values. split; [reflexivity|exact Hv].
  - inversion Hv as [|? v ? vs Ht Hvs]; subst.
    destruct (IH _ Hvs) as (vs' & Hp & Hvs').
    exists (v :: vs'). split; [constructor; exact Hp|constructor; assumption].
  - inversion Hv as [|? v' ? vs0 Ht' Hvs0]; subst.
    inversion Hvs0 as [|? v ? vs Ht Hvs]; subst.
    exists (v :: v' :: vs). split; [apply perm_swap|].
    repeat constructor; assumption.
  - destruct (IH _ Hv) as (vs' & Hp & Hvs').
    destruct (IH' _ Hvs') as (vs'' & Hp' & Hvs'').
    exists vs''. split; [etransitivity; eassumption|exact Hvs''].
Qed.

Lemma result_map_value_permutation (tokens tokens' : list NumberToken) :
  Permutation tokens tokens' ->
  (exists values values',
     result_map value tokens = Ok values /\
     result_map value tokens' = Ok values' /\ Permutation values values') \/
  (result_map value tokens = Raise ValueError /\
   result_map value tokens' = Raise ValueError).
Proof.
  intros Hperm. destruct (result_map value tokens) as [values|e] eqn:Hmap.
  - left. apply result_map_Forall2 in Hmap.
    destruct (values_permutation _ _ _ Hperm Hmap) as (values' & Hp & Hv').
    exists values, values'. split; [reflexivity|].
    split; [apply result_map_Forall2, Hv'|exact Hp].
  - right. destruct (result_map_value_raises _ _ Hmap) as (-> & t & Hin & Ht).
    split; [reflexivity|].
    apply (result_map_value_In_raises _ t ValueError); [|exact Ht].
    apply list_elem_of_In. rewrite <- Hperm. apply list_elem_of_In, Hin.
Qed.

Lemma py_sum_permutation (l l' : list Z) :
  Permutation l l' -> py_sum l = py_sum l'.
Proof.
  rewrite !py_sum_foldr.
  induction 1 as [|x l l' _ IH|x y l|l l' l'' _ IH _ IH']; simpl; lia.
Qed.

Lemma py_max_permutation (l l' : list Z) :
  Permutation l l' -> py_max l = py_max l'.
Proof.
  intros Hperm. destruct l as [|x l].
  { apply Permutation_nil in Hperm as ->. reflexivity. }
  destruct l' as [|x' l'].
  { apply Permutation_nil_r in Hperm. discriminate. }
  destruct (py_max_greatest x l) as (m & -> & Hin & Hmax).
  destruct (py_max_greatest x' l') as (m' & -> & Hin' & Hmax').
  f_equal. apply Z.le_antisymm.
  - apply Hmax'. apply list_elem_of_In. rewrite <- Hperm.
    apply list_elem_of_In, Hin.
  - apply Hmax. apply list_elem_of_In. rewrite Hperm.
    apply list_elem_of_In, Hin'.
Qed.

(** C10. [count_tokens], [sum_tokens] and [max_token] give the same on a
    token sequence and on any permutation of it; [longest_token] does
    not: two tokens of the same length swap its answer. *)
Theorem analyses_order_insensitive (tokens tokens' : list NumberToken) :
  Permutation tokens tokens' ->
  count_tokens tokens = count_tokens tokens' /\
  sum_tokens tokens = sum_tokens tokens' /\
  max_token tokens = max_token tokens' /\
  exists l l', Permutation l l' /\ longest_token l <> longest_token l'.
Proof.
  intros Hperm. split; [|split; [|split]].
  - unfold count_tokens. rewrite (Permutation_length Hperm). reflexivity.
  - unfold sum_tokens.
    destruct (result_map_value_permutation _ _ Hperm)
      as [(values & values' & -> & -> & Hp)|[-> ->]]; [|reflexivity].
    simpl. rewrite (py_sum_permutation _ _ Hp). reflexivity.
  - unfold max_token.
    destruct (result_map_value_permutation _ _ Hperm)
      as [(values & values' & Hv & Hv' & Hp)|[Hv Hv']].
    + destruct tokens as [|t tokens].
      { apply Permutation_nil in Hperm as ->. reflexivity. }
      destruct tokens' as [|t' tokens'].
      { apply Permutation_nil_r in Hperm. discriminate. }
      rewrite Hv, Hv'. simpl. rewrite (py_max_permutation _ _ Hp). reflexivity.
    + destruct tokens as [|t tokens]; [discriminate|].
      destruct tokens' as [|t' tokens']; [discriminate|].
      rewrite Hv, Hv'. reflexivity.
  - exists (tokens_of_texts ["12"; "34"]), (tokens_of_texts ["34"; "12"]).
    split; [apply perm_swap|]. discriminate.
Qed.

Lemma analyses_order_insensitive_sample :
  count_tokens (tokens_of_texts ["7"; "356"; "020"])
  = count_tokens (tokens_of_texts ["356"; "7"; "020"]) /\
  sum_tokens (tokens_of_texts ["7"; "356"; "020"])
  = sum_tokens (tokens_of_texts ["356"; "7"; "020"]) /\
  max_token (tokens_of_texts ["7"; "356"; "020"])
  = max_token (tokens_of_texts ["356"; "7"; "020"]) /\
  exists l l', Permutation l l' /\ longest_token l <> longest_token l'.
Proof.
  apply (analyses_order_insensitive
           (tokens_of_texts ["7"; "356"; "020"])
           (tokens_of_texts ["356"; "7"; "020"])).
  apply perm_swap.
Defined.

(** * Further properties *)

(** ** The tokenizer on the shapes of a text *)

Lemma finditer_runs (s : list N) (i j : nat) :
  In (i, j) (finditer s) <-> maximal_digit_run s i j.
Proof.
  unfold finditer. rewrite finditer_from_run.
  split; [tauto|]. intros Hrun. split; [lia|exact Hrun].
Qed.

Lemma tokens_concat (s : list N) :
  concat (map text (extract_number_tokens s)) = List.filter is_decimal s.
Proof.
  unfold extract_number_tokens, finditer. rewrite map_map. simpl.
  rewrite finditer_from_concat; [reflexivity|]. intros p [=].
Qed.

Lemma filter_decimal_nil (s : list N) :
  List.filter is_decimal s = [] <-> Forall (fun c => is_decimal c = false) s.
Proof.
  induction s as [|c s IH]; simpl.
  - split; [constructor|reflexivity].
  - destruct (is_decimal c) eqn:Hc.
    + split; [discriminate|]. intros Hall%Forall_inv. congruence.
    + rewrite IH. split; [constructor; assumption|apply Forall_inv_tail].
Qed.

(** A text has no token exactly when it has no decimal digit: one digit
    anywhere is enough for a token, and nothing else makes one. *)
Theorem extract_number_tokens_nil_iff (s : str) :
  extract_number_tokens s = [] <->
  Forall (fun c => is_decimal c = false) s.
Proof.
  rewrite <- filter_decimal_nil, <- tokens_concat. split.
  - intros ->. reflexivity.
  - intros Hnil. destruct (extract_number_tokens s) as [|t tokens] eqn:Htokens;
      [reflexivity|exfalso].
    pose proof (tokenizer_digit_runs s) as Hruns. rewrite Htokens in Hruns.
    apply Forall_inv in Hruns as [Hne _].
    simpl in Hnil. apply app_eq_nil in Hnil as [Ht _]. congruence.
Qed.

(** A text made of digits only, and at least one, is one token: the whole
    text. *)
Theorem extract_number_tokens_digit_run (s : str) :
  digit_run s -> extract_number_tokens s = [ {| text := s |} ].
Proof.
  intros Hrun. unfold extract_number_tokens.
  rewrite (finditer_digit_run s Hrun). simpl. unfold group0. simpl.
  rewrite Nat.sub_0_r, drop_0, firstn_all. reflexivity.
Qed.

Lemma extract_number_tokens_digit_run_sample :
  extract_number_tokens (lit "0042") = [ {| text := lit "0042" |} ].
Proof.
  apply (extract_number_tokens_digit_run (lit "0042")).
  split; [discriminate|repeat constructor].
Defined.

Lemma apart_count (runs : list (nat * nat)) (p n : nat) :
  StronglySorted apart runs ->
  Forall (fun m : nat * nat => p <= m.1 /\ m.1 < m.2 /\ m.2 <= n) runs ->
  runs = [] \/ 2 * length runs + p <= n + 1.
Proof.
  intros Hsorted. revert p.
  induction Hsorted as [|a runs Hsorted IH Ha]; intros p Hall; [left; reflexivity|].
  right. apply Forall_cons in Hall as [(Hp & Hspan & Hn) Hall].
  destruct (IH (S a.2)) as [->|Hcount].
  - rewrite Forall_forall in Ha, Hall |- *. intros m Hm.
    specialize (Ha m Hm). specialize (Hall m Hm). unfold apart in Ha. lia.
  - simpl. lia.
  - simpl in *. lia.
Qed.

(** Two tokens are at least one character apart, so a text of [n]
    characters has at most [(n + 1) / 2] tokens. *)
Theorem extract_number_tokens_count (s : str) :
  2 * length (extract_number_tokens s) <= length s + 1.
Proof.
  unfold extract_number_tokens. rewrite length_map.
  destruct (apart_count (finditer s) 0 (length s)) as [->|Hcount];
    [apply finditer_from_apart| |simpl; lia|lia].
  apply Forall_forall. intros [i j] Hm%list_elem_of_In%finditer_runs.
  pose proof (maximal_digit_run_bound s i j Hm). destruct Hm. simpl. lia.
Qed.

(** ** The tokenizer and the characters between the numbers *)

(** A maximal run, said with [digit_at]. *)
Lemma maximal_digit_run_digit_at (s : list N) (i j : nat) :
  maximal_digit_run s i j <->
  i < j /\
  (forall k, i <= k < j -> digit_at s k = true) /\
  (forall p, i = S p -> digit_at s p = false) /\
  digit_at s j = false.
Proof.
  unfold maximal_digit_run. split.
  - intros (Hlt & Hin & Hbefore & Hafter). split; [exact Hlt|]. split; [|split].
    + intros k Hk. apply digit_at_true, Hin, Hk.
    + intros p Hp. apply digit_at_false. intros c. apply Hbefore, Hp.
    + apply digit_at_false, Hafter.
  - intros (Hlt & Hin & Hbefore & Hafter). split; [exact Hlt|]. split; [|split].
    + intros k Hk. apply digit_at_true, Hin, Hk.
    + intros p c Hp. revert c. apply digit_at_false, Hbefore, Hp.
    + apply digit_at_false, Hafter.
Qed.

Lemma finditer_ext (s s' : list N) :
  (forall i, digit_at s i = digit_at s' i) -> finditer s = finditer s'.
Proof.
  intros Hsame. apply (maximal_runs_unique s); try apply finditer_from_apart.
  - apply finditer_runs.
  - intros i j. rewrite finditer_runs, !maximal_digit_run_digit_at.
    setoid_rewrite Hsame. reflexivity.
Qed.

Lemma digit_at_same_kind (s s' : list N) (i : nat) :
  Forall2 same_kind s s' -> digit_at s i = digit_at s' i.
Proof.
  intros Hkind. pose proof (Forall2_length _ _ _ Hkind) as Hlen.
  unfold digit_at.
  destruct (s !! i) as [c|] eqn:Hc, (s' !! i) as [c'|] eqn:Hc'.
  - pose proof (Forall2_lookup_lr _ _ _ _ _ _ Hkind Hc Hc') as Hcc.
    unfold same_kind in Hcc. destruct (is_decimal c) eqn:Hd; congruence.
  - apply lookup_lt_Some in Hc. apply lookup_ge_None in Hc'. lia.
  - apply lookup_ge_None in Hc. apply lookup_lt_Some in Hc'. lia.
  - reflexivity.
Qed.

Lemma group0_lookup (s : list N) (i j k : nat) :
  group0 s (i, j) !! k = if decide (k < j - i) then s !! (i + k) else None.
Proof.
  unfold group0. simpl. rewrite lookup_take.
  destruct (decide (k < j - i)); [apply lookup_drop|reflexivity].
Qed.

(** The tokens do not depend on which characters stand between the
    numbers: two texts with the same digits at the same places, and any
    characters that are not digits elsewhere, have the same tokens. *)
Theorem extract_number_tokens_separators (s s' : str) :
  Forall2 same_kind s s' ->
  extract_number_tokens s = extract_number_tokens s'.
Proof.
  intros Hkind. unfold extract_number_tokens.
  rewrite <- (finditer_ext s s') by (intros i; apply digit_at_same_kind, Hkind).
  apply map_ext_in. intros [i j] Hrun%finditer_runs. f_equal.
  apply list_eq. intros k. rewrite !group0_lookup.
  destruct (decide (k < j - i)) as [Hk|]; [|reflexivity].
  destruct Hrun as (_ & Hin & _). destruct (Hin (i + k)) as (c & Hc & Hd); [lia|].
  rewrite Hc. destruct (s' !! (i + k)) as [c'|] eqn:Hc'.
  - pose proof (Forall2_lookup_lr _ _ _ _ _ _ Hkind Hc Hc') as Hcc.
    unfold same_kind in Hcc. rewrite Hd in Hcc. congruence.
  - apply lookup_lt_Some in Hc. apply lookup_ge_None in Hc'.
    apply Forall2_length in Hkind. lia.
Qed.

Lemma extract_number_tokens_separators_sample :
  extract_number_tokens (lit "12a34") = extract_number_tokens (lit "12 34").
Proof.
  apply (extract_number_tokens_separators (lit "12a34") (lit "12 34")).
  repeat constructor.
Defined.

(** ** The tokenizer on a text cut in two *)

Section Cut.
Variables s1 s2 : list N.
Hypothesis Hcut : clean_cut s1 s2.

Lemma digit_at_app (k : nat) :
  digit_at (s1 ++ s2) k =
  if decide (k < length s1) then digit_at s1 k else digit_at s2 (k - length s1).
Proof.
  unfold digit_at. destruct (decide (k < length s1)).
  - rewrite lookup_app_l by assumption. reflexivity.
  - rewrite lookup_app_r by lia. reflexivity.
Qed.

Lemma clean_cut_digit_at :
  0 < length s1 -> digit_at s1 (length s1 - 1) = true -> digit_at s2 0 = false.
Proof.
  intros Hlen (c & Hc & Hd)%digit_at_true. apply digit_at_false. intros c' Hc'.
  apply (Hcut c c'); [|rewrite head_lookup; exact Hc'|exact Hd].
  rewrite last_lookup. replace (Init.Nat.pred (length s1)) with (length s1 - 1) by lia.
  exact Hc.
Qed.

Lemma maximal_digit_run_app (i j : nat) :
  maximal_digit_run (s1 ++ s2) i j <->
  maximal_digit_run s1 i j \/
  exists i' j', i = length s1 + i' /\ j = length s1 + j' /\
                maximal_digit_run s2 i' j'.
Proof.
  rewrite maximal_digit_run_digit_at. setoid_rewrite maximal_digit_run_digit_at.
  setoid_rewrite digit_at_app. split.
  - intros (Hlt & Hin & Hbefore & Hafter).
    destruct (decide (j <= length s1)) as [Hj|Hj].
    + left. split; [exact Hlt|]. split; [|split].
      * intros k Hk. specialize (Hin k Hk).
        destruct (decide (k < length s1)); [exact Hin|lia].
      * intros p Hp. specialize (Hbefore p Hp).
        destruct (decide (p < length s1)); [exact Hbefore|lia].
      * destruct (decide (j < length s1)); [exact Hafter|].
        unfold digit_at. rewrite lookup_ge_None_2 by lia. reflexivity.
    + destruct (decide (length s1 <= i)) as [Hi|Hi].
      * right. exists (i - length s1), (j - length s1).
        split; [lia|]. split; [lia|]. split; [lia|]. split; [|split].
        -- intros k Hk. specialize (Hin (length s1 + k) ltac:(lia)).
           destruct (decide (length s1 + k < length s1)); [lia|].
           replace (length s1 + k - length s1) with k in Hin by lia. exact Hin.
        -- intros p Hp. specialize (Hbefore (length s1 + p) ltac:(lia)).
           destruct (decide (length s1 + p < length s1)); [lia|].
           replace (length s1 + p - length s1) with p in Hbefore by lia.
           exact Hbefore.
        -- destruct (decide (j < length s1)); [lia|exact Hafter].
      * exfalso.
        pose proof (Hin (length s1 - 1) ltac:(lia)) as Hlast.
        pose proof (Hin (length s1) ltac:(lia)) as Hfirst.
        destruct (decide (length s1 - 1 < length s1)); [|lia].
        destruct (decide (length s1 < length s1)); [lia|].
        rewrite Nat.sub_diag in Hfirst.
        rewrite clean_cut_digit_at in Hfirst; [discriminate|lia|exact Hlast].
  - intros [(Hlt & Hin & Hbefore & Hafter)
           |(i' & j' & -> & -> & Hlt & Hin & Hbefore & Hafter)].
    + assert (j <= length s1) as Hj.
      { pose proof (digit_at_lt s1 (j - 1) (Hin (j - 1) ltac:(lia))). lia. }
      split; [exact Hlt|]. split; [|split].
      * intros k Hk. destruct (decide (k < length s1)); [apply Hin, Hk|lia].
      * intros p Hp. destruct (decide (p < length s1)); [apply Hbefore, Hp|lia].
      * destruct (decide (j < length s1)); [exact Hafter|].
        replace (j - length s1) with 0 by lia.
        apply clean_cut_digit_at; [lia|].
        replace (length s1 - 1) with (j - 1) by lia. apply Hin. lia.
    + split; [lia|]. split; [|split].
      * intros k Hk. destruct (decide (k < length s1)); [lia|]. apply Hin. lia.
      * intros p Hp. destruct (decide (p < length s1)) as [Hlow|Hhigh].
        -- assert (i' = 0) as -> by lia.
           destruct (digit_at s1 p) eqn:Hd; [exfalso|reflexivity].
           replace p with (length s1 - 1) in Hd by lia.
           specialize (Hin 0 ltac:(lia)).
           rewrite clean_cut_digit_at in Hin; [discriminate|lia|exact Hd].
        -- apply Hbefore. lia.
      * destruct (decide (length s1 + j' < length s1)); [lia|].
        replace (length s1 + j' - length s1) with j' by lia. exact Hafter.
Qed.

Lemma finditer_app :
  finditer (s1 ++ s2) = finditer s1 ++ map (shift (length s1)) (finditer s2).
Proof.
  apply (maximal_runs_unique (s1 ++ s2)).
  - apply finditer_from_apart.
  - apply StronglySorted_app. split; [|split].
    + intros [i j] m' Hm%list_elem_of_In%finditer_runs Hm'%list_elem_of_In.
      apply in_map_iff in Hm' as ([i' j'] & <- & Hm'%finditer_runs).
      unfold apart, shift. simpl.
      pose proof (maximal_digit_run_bound _ _ _ Hm) as Hj.
      destruct (decide (j < length s1 + i')) as [|Hge]; [assumption|exfalso].
      assert (j = length s1 /\ i' = 0) as [-> ->] by lia.
      apply maximal_digit_run_digit_at in Hm as (Hlt & Hin & _).
      apply maximal_digit_run_digit_at in Hm' as (Hlt' & Hin' & _).
      specialize (Hin (length s1 - 1) ltac:(lia)).
      specialize (Hin' 0 ltac:(lia)).
      rewrite clean_cut_digit_at in Hin'; [discriminate|lia|exact Hin].
    + apply finditer_from_apart.
    + pose proof (finditer_from_apart s2 0) as Hsorted. fold (finditer s2) in Hsorted.
      induction Hsorted as [|m runs _ IH Hm]; simpl; constructor; [exact IH|].
      apply Forall_map. eapply Forall_impl; [exact Hm|].
      intros m'. unfold apart, shift. simpl. lia.
  - apply finditer_runs.
  - intros i j. rewrite maximal_digit_run_app, in_app_iff, finditer_runs.
    split.
    + intros [Hrun|Hrun]; [left; exact Hrun|right].
      apply in_map_iff in Hrun as ([i' j'] & [= <- <-] & Hrun%finditer_runs).
      eauto.
    + intros [Hrun|(i' & j' & -> & -> & Hrun)]; [left; exact Hrun|right].
      apply in_map_iff. exists (i', j'). split; [reflexivity|].
      apply finditer_runs, Hrun.
Qed.

(** Cutting a text anywhere but inside a number cuts its tokens: when the
    character before the cut and the one after it are not both digits, the
    tokens of the whole are the tokens of the first part and then those of
    the second. *)
Theorem extract_number_tokens_app :
  extract_number_tokens (s1 ++ s2)
  = extract_number_tokens s1 ++ extract_number_tokens s2.
Proof.
  unfold extract_number_tokens. rewrite finditer_app, map_app, map_map. f_equal.
  - apply map_ext_in. intros [i j] Hrun%finditer_runs. f_equal.
    pose proof (maximal_digit_run_bound _ _ _ Hrun) as Hj. destruct Hrun as [Hlt _].
    unfold group0. simpl. rewrite drop_app_le by lia.
    apply take_app_le. rewrite length_drop. lia.
  - apply map_ext_in. intros [i j] _. f_equal. unfold group0, shift. simpl.
    rewrite drop_app_add. f_equal. lia.
Qed.
End Cut.

Lemma extract_number_tokens_app_sample :
  extract_number_tokens (lit "356xv@@4v" ++ lit "dfvdfD#$%@@#245")
  = extract_number_tokens (lit "356xv@@4v")
    ++ extract_number_tokens (lit "dfvdfD#$%@@#245").
Proof.
  apply (extract_number_tokens_app (lit "356xv@@4v") (lit "dfvdfD#$%@@#245")).
  intros c c' [= <-] _. discriminate.
Defined.

(** ** The value of a token *)

(** A token of a text denotes a number in base ten, which is not negative
    and has no more digits than the token; this number is the value of the
    token when the token has no more digits than the limit of the
    interpreter, and a longer token has no value: [int] raises
    [ValueError]. *)
Theorem extract_number_tokens_value (s : str) (t : NumberToken) :
  In t (extract_number_tokens s) ->
  (0 <= Z.of_N (digits_number (text t)) < 10 ^ Z.of_nat (length (text t)))%Z /\
  (length (text t) <= max_str_digits ->
   value t = Ok (Z.of_N (digits_number (text t)))) /\
  (max_str_digits < length (text t) -> value t = Raise ValueError).
Proof.
  intros Hin. pose proof (tokenizer_digit_runs s) as Hruns.
  rewrite Forall_forall in Hruns.
  apply list_elem_of_In, Hruns in Hin.
  split; [|split; [apply value_short_run, Hin|apply value_long_run, Hin]].
  split; [lia|]. pose proof (digits_number_bound (text t)) as Hbound.
  replace (Z.of_nat (length (text t))) with (Z.of_N (N.of_nat (length (text t))))
    by lia.
  change 10%Z with (Z.of_N 10). rewrite <- N2Z.inj_pow. lia.
Qed.

Lemma extract_number_tokens_value_sample :
  value {| text := lit "245" |} = Ok 245%Z.
Proof.
  destruct (extract_number_tokens_value sample_text {| text := lit "245" |})
    as (_ & Hshort & _).
  - vm_compute. auto.
  - rewrite Hshort; [reflexivity|]. unfold max_str_digits. simpl. lia.
Defined.

(** ** Answers as numbers *)

Lemma answer_number_decimal_string (z : Z) :
  within_limit z -> answer_number (Ok (decimal_string z)) = Some z.
Proof.
  intros Hz. unfold answer_number. rewrite (py_int_decimal_string z Hz).
  reflexivity.
Qed.

Lemma answer_number_py_str (z z' : Z) :
  answer_number (py_str z) = Some z' <-> z' = z /\ within_limit z.
Proof.
  destruct (within_limit_dec z) as [Hz|Hz].
  - rewrite (py_str_within z Hz), (answer_number_decimal_string z Hz).
    split; [intros [= <-]; auto|intros [-> _]; reflexivity].
  - rewrite (py_str_beyond z Hz). split; [discriminate|tauto].
Qed.

Lemma answer_number_count (tokens : list NumberToken) (n : Z) :
  answer_number (count_tokens tokens) = Some n <->
  n = Z.of_nat (length tokens) /\ within_limit n.
Proof.
  unfold count_tokens, str_len, answer_number.
  destruct (py_int (decimal_string (Z.of_nat (length tokens)))) as [z|e] eqn:Hint.
  - apply py_int_decimal_string_Ok in Hint as [-> Hz]. split.
    + intros [= <-]. auto.
    + intros [-> _]. reflexivity.
  - split; [discriminate|]. intros [-> Hz].
    rewrite (py_int_decimal_string _ Hz) in Hint. discriminate.
Qed.

Lemma answer_number_sum (tokens : list NumberToken) (z : Z) :
  answer_number (sum_tokens tokens) = Some z <->
  exists values,
    result_map value tokens = Ok values /\ z = py_sum values /\ within_limit z.
Proof.
  destruct (result_map value tokens) as [values|e] eqn:Hvalues.
  - rewrite (sum_tokens_values _ _ Hvalues), answer_number_py_str. split.
    + intros [-> Hz]. eauto.
    + intros (values' & [= <-] & -> & Hz). auto.
  - unfold sum_tokens. rewrite Hvalues. split; [discriminate|].
    intros (values & [=] & _).
Qed.

Lemma decimal_string_head (z : Z) :
  exists c out, decimal_string z = c :: out /\ (c = 45%N \/ is_ascii_digit c = true).
Proof.
  destruct (digits_of_spec (Z.abs_N z)) as (_ & Hall & c & l & Heq & _).
  unfold decimal_string. destruct (z <? 0)%Z.
  - exists 45%N, (digits_of (Z.abs_N z)). auto.
  - exists c, l. split; [exact Heq|right].
    rewrite Heq in Hall. apply (Forall_inv Hall).
Qed.

Lemma decimal_string_not_BRAK (z : Z) : decimal_string z <> BRAK.
Proof.
  destruct (decimal_string_head z) as (c & out & -> & [->|Hc]); [discriminate|].
  intros [= -> _]. discriminate.
Qed.

Lemma answer_number_max (tokens : list NumberToken) (z : Z) :
  answer_number (max_token tokens) = Some z <->
  exists values, result_map value tokens = Ok values /\ py_max values = Ok z.
Proof.
  destruct tokens as [|t tokens].
  { split; [discriminate|]. intros (values & [= <-] & [=]). }
  destruct (result_map value (t :: tokens)) as [values|e] eqn:Hvalues.
  - destruct (max_token_values (t :: tokens) values)
      as (m & Hm & Hin & _ & ->); [discriminate|exact Hvalues|].
    pose proof (values_within _ _ Hvalues) as Hwithin.
    rewrite Forall_forall in Hwithin.
    rewrite answer_number_decimal_string
      by (apply Hwithin, list_elem_of_In, Hin).
    split.
    + intros [= <-]. eauto.
    + intros (values' & [= <-] & Hz). congruence.
  - unfold max_token. rewrite Hvalues. split; [discriminate|].
    intros (values & [=] & _).
Qed.

(** What the analyses answer reads back, with [int], as the number it
    stands for. When [values] are the values of the tokens: the count reads
    back as the number of tokens as long as that number is within the limit
    of the interpreter; the sum reads back as the sum of the values when
    the sum is within that limit, and otherwise [sum_tokens] raises
    [ValueError] and answers nothing; when there is a token, the answer of
    [max_token] reads back as the greatest value. *)
Theorem answers_read_back (tokens : list NumberToken) (values : list Z) :
  Forall2 (fun t v => value t = Ok v) tokens values ->
  (within_limit (Z.of_nat (length tokens)) ->
   answer_number (count_tokens tokens) = Some (Z.of_nat (length tokens))) /\
  (within_limit (foldr Z.add 0%Z values) ->
   answer_number (sum_tokens tokens) = Some (foldr Z.add 0%Z values)) /\
  (~ within_limit (foldr Z.add 0%Z values) ->
   sum_tokens tokens = Raise ValueError) /\
  (tokens <> [] ->
   exists m, answer_number (max_token tokens) = Some m /\
             In m values /\ forall v, In v values -> (v <= m)%Z).
Proof.
  intros Hvalues. pose proof Hvalues as Hmap%result_map_Forall2.
  split; [|split; [|split]].
  - intros Hcount. apply answer_number_count. auto.
  - intros Hsum. apply answer_number_sum. exists values.
    rewrite py_sum_foldr. auto.
  - intros Hsum. rewrite (sum_tokens_values _ _ Hmap), py_sum_foldr.
    apply py_str_beyond, Hsum.
  - intros Hne. destruct Hvalues as [|t v tokens values Ht Hrest]; [congruence|].
    destruct (py_max_greatest v values) as (m & Hm & Hin & Hmax).
    exists m. split; [|split; assumption].
    apply answer_number_max. eauto.
Qed.

Lemma answers_read_back_sample :
  answer_number (count_tokens (tokens_of_texts ["001"; "20"])) = Some 2%Z /\
  answer_number (sum_tokens (tokens_of_texts ["001"; "20"])) = Some 21%Z /\
  exists m, answer_number (max_token (tokens_of_texts ["001"; "20"])) = Some m /\
            In m [1; 20]%Z /\ forall v, In v [1; 20]%Z -> (v <= m)%Z.
Proof.
  destruct (answers_read_back (tokens_of_texts ["001"; "20"]) [1; 20]%Z)
    as (Hcount & Hsum & _ & Hmax); [repeat constructor|].
  split; [apply Hcount; vm_compute; reflexivity|].
  split; [apply Hsum; vm_compute; reflexivity|].
  apply Hmax. discriminate.
Defined.

(** The mark "BRAK" is never mistaken for an answer: [max_token] and
    [longest_token] return it for the empty sequence only, and
    [count_tokens] and [sum_tokens] never return it. *)
Theorem BRAK_iff_no_token (tokens : list NumberToken) :
  (max_token tokens = Ok BRAK <-> tokens = []) /\
  (longest_token tokens = Ok BRAK <-> tokens = []) /\
  count_tokens tokens <> Ok BRAK /\
  sum_tokens tokens <> Ok BRAK.
Proof.
  split; [|split; [|split]].
  - split; [|intros ->; reflexivity].
    destruct tokens as [|t tokens]; [reflexivity|]. unfold max_token.
    destruct (result_map value (t :: tokens)) as [values|e]; simpl; [|discriminate].
    destruct (py_max values) as [m|e]; simpl; [|discriminate].
    intros [_ Hm]%py_str_Ok. destruct (decimal_string_not_BRAK m). auto.
  - split; [|intros ->; reflexivity].
    destruct tokens as [|t tokens]; [reflexivity|]. unfold longest_token.
    intros [= Hout]. exfalso.
    assert (In 32%N BRAK) as Hspace.
    { rewrite <- Hout. apply in_or_app. right. left. reflexivity. }
    vm_compute in Hspace. decompose [or] Hspace; discriminate || assumption.
  - unfold count_tokens. intros [= Hout]. apply (decimal_string_not_BRAK _ Hout).
  - unfold sum_tokens. destruct (result_map value tokens) as [values|e]; simpl;
      [|discriminate].
    intros [_ Hout]%py_str_Ok. destruct (decimal_string_not_BRAK (py_sum values)).
    auto.
Qed.

(** ** Analysing a sequence in two parts *)

Lemma result_map_app {A B} (f : A -> result B) (l1 l2 : list A) :
  result_map f (l1 ++ l2)
  = result_bind (result_map f l1) (fun ys1 =>
    result_bind (result_map f l2) (fun ys2 => Ok (ys1 ++ ys2))).
Proof.
  induction l1 as [|x l1 IH]; simpl.
  - destruct (result_map f l2); reflexivity.
  - destruct (f x) as [y|e]; simpl; [|reflexivity]. rewrite IH.
    destruct (result_map f l1) as [ys1|e]; simpl; [|reflexivity].
    destruct (result_map f l2); reflexivity.
Qed.

Lemma py_sum_app (l1 l2 : list Z) : py_sum (l1 ++ l2) = (py_sum l1 + py_sum l2)%Z.
Proof.
  rewrite !py_sum_foldr. induction l1 as [|x l1 IH]; simpl; lia.
Qed.

Lemma py_max_app (l1 l2 : list Z) (m1 m2 : Z) :
  py_max l1 = Ok m1 -> py_max l2 = Ok m2 ->
  py_max (l1 ++ l2) = Ok (Z.max m1 m2).
Proof.
  destruct l1 as [|x l1]; [discriminate|]. destruct l2 as [|y l2]; [discriminate|].
  destruct (py_max_greatest x l1) as (m1' & -> & Hin1 & Hmax1).
  destruct (py_max_greatest y l2) as (m2' & -> & Hin2 & Hmax2).
  intros [= <-] [= <-].
  change ((x :: l1) ++ y :: l2) with (x :: (l1 ++ y :: l2)).
  destruct (py_max_greatest x (l1 ++ y :: l2)) as (m & -> & Hin & Hmax).
  f_equal. change (x :: (l1 ++ y :: l2)) with ((x :: l1) ++ y :: l2) in Hin, Hmax.
  apply Z.le_antisymm.
  - apply in_app_or in Hin as [Hin|Hin];
      [specialize (Hmax1 _ Hin)|specialize (Hmax2 _ Hin)]; lia.
  - apply Z.max_lub; apply Hmax, in_or_app; auto.
Qed.

(** The answers on a sequence made of two follow from the answers on each.
    The counts add up, as long as the total is within the limit of the
    interpreter. The sums add up when the total is within that limit, and
    otherwise [sum_tokens] raises [ValueError] on the whole though it
    answers on each part. The greatest value is the greater of the two. *)
Theorem analyses_app (tokens1 tokens2 : list NumberToken) :
  (forall n1 n2,
     answer_number (count_tokens tokens1) = Some n1 ->
     answer_number (count_tokens tokens2) = Some n2 ->
     within_limit (n1 + n2) ->
     answer_number (count_tokens (tokens1 ++ tokens2)) = Some (n1 + n2)%Z) /\
  (forall z1 z2,
     answer_number (sum_tokens tokens1) = Some z1 ->
     answer_number (sum_tokens tokens2) = Some z2 ->
     (within_limit (z1 + z2) ->
      answer_number (sum_tokens (tokens1 ++ tokens2)) = Some (z1 + z2)%Z) /\
     (~ within_limit (z1 + z2) ->
      sum_tokens (tokens1 ++ tokens2) = Raise ValueError)) /\
  (forall m1 m2,
     answer_number (max_token tokens1) = Some m1 ->
     answer_number (max_token tokens2) = Some m2 ->
     answer_number (max_token (tokens1 ++ tokens2)) = Some (Z.max m1 m2)).
Proof.
  split; [|split].
  - intros n1 n2 [-> _]%answer_number_count [-> _]%answer_number_count Hlimit.
    apply answer_number_count. split; [rewrite length_app; lia|exact Hlimit].
  - intros z1 z2 (values1 & Hv1 & -> & _)%answer_number_sum
                 (values2 & Hv2 & -> & _)%answer_number_sum.
    assert (result_map value (tokens1 ++ tokens2) = Ok (values1 ++ values2))
      as Hvalues by (rewrite result_map_app, Hv1, Hv2; reflexivity).
    rewrite <- py_sum_app. split.
    + intros Hlimit. apply answer_number_sum. exists (values1 ++ values2). auto.
    + intros Hlimit. rewrite (sum_tokens_values _ _ Hvalues).
      apply py_str_beyond, Hlimit.
  - intros m1 m2 (values1 & Hv1 & Hm1)%answer_number_max
                 (values2 & Hv2 & Hm2)%answer_number_max.
    apply answer_number_max. exists (values1 ++ values2).
    rewrite result_map_app, Hv1, Hv2. split; [reflexivity|].
    apply py_max_app; assumption.
Qed.

Lemma analyses_app_sample :
  answer_number
    (sum_tokens (tokens_of_texts ["356"; "4"] ++ tokens_of_texts ["245"]))
  = Some (360 + 245)%Z.
Proof.
  destruct (analyses_app (tokens_of_texts ["356"; "4"]) (tokens_of_texts ["245"]))
    as (_ & Hsum & _).
  destruct (Hsum 360%Z 245%Z) as [Hwithin _]; [reflexivity|reflexivity|].
  apply Hwithin. vm_compute. reflexivity.
Defined.

(** ** Answers on the tokens of a text *)

Lemma values_nonnegative (tokens : list NumberToken) (values : list Z) :
  Forall (fun t => digit_run (text t)) tokens ->
  result_map value tokens = Ok values ->
  Forall (fun v => (0 <= v)%Z) values.
Proof.
  intros Hruns Hvalues%result_map_Forall2.
  induction Hvalues as [|t v tokens values Ht _ IH]; [constructor|].
  apply Forall_cons in Hruns as [Hrun Hruns].
  constructor; [|apply IH, Hruns].
  rewrite (value_digit_run t Hrun) in Ht.
  destruct (max_str_digits <? length (text t)); [discriminate|].
  injection Ht as <-. lia.
Qed.

Lemma py_sum_nonnegative (values : list Z) (v : Z) :
  Forall (fun v => (0 <= v)%Z) values ->
  (0 <= py_sum values)%Z /\ (In v values -> (v <= py_sum values)%Z).
Proof.
  rewrite py_sum_foldr. induction 1 as [|x values Hx _ [IH0 IH]]; simpl.
  - split; [lia|tauto].
  - split; [lia|]. intros [->|Hin]; [lia|]. specialize (IH Hin). lia.
Qed.

Lemma decimal_string_canonical (z : Z) : (0 <= z)%Z -> canonical_digits (decimal_string z).
Proof.
  intros Hz. unfold decimal_string. destruct (Z.ltb_spec z 0); [lia|].
  apply digits_of_canonical.
Qed.

(** On tokens made of digits, as are the tokens of any text, whenever
    [sum_tokens] answers, [max_token] answers too, and the greatest value
    is not negative and is at most the sum. *)
Theorem max_at_most_sum (tokens : list NumberToken) (total : Z) :
  Forall (fun t => digit_run (text t)) tokens -> tokens <> [] ->
  answer_number (sum_tokens tokens) = Some total ->
  exists m, answer_number (max_token tokens) = Some m /\ (0 <= m <= total)%Z.
Proof.
  intros Hruns Hne (values & Hvalues & -> & _)%answer_number_sum.
  pose proof (values_nonnegative _ _ Hruns Hvalues) as Hpos.
  destruct values as [|v values].
  { destruct tokens as [|t tokens]; [congruence|].
    apply result_map_Forall2 in Hvalues. inversion Hvalues. }
  destruct (py_max_greatest v values) as (m & Hm & Hin & Hmax).
  exists m. split; [apply answer_number_max; eauto|].
  destruct (py_sum_nonnegative (v :: values) m Hpos) as [_ Hle].
  rewrite Forall_forall in Hpos. split; [|apply Hle, Hin].
  apply Hpos, list_elem_of_In, Hin.
Qed.

Lemma max_at_most_sum_sample :
  exists m,
    answer_number (max_token (tokens_of_texts ["356"; "4"; "245"])) = Some m /\
    (0 <= m <= 605)%Z.
Proof.
  apply (max_at_most_sum (tokens_of_texts ["356"; "4"; "245"]) 605).
  - repeat (apply Forall_cons; split;
            [split; [discriminate|repeat constructor]|]).
    constructor.
  - discriminate.
  - reflexivity.
Defined.

(** On tokens made of digits, whatever their script and however many
    zeros they start with, the numbers answered are written in ASCII
    digits, with no sign and no zero in front. *)
Theorem answers_canonical (tokens : list NumberToken) (out : str) :
  Forall (fun t => digit_run (text t)) tokens ->
  count_tokens tokens = Ok out \/ sum_tokens tokens = Ok out \/
  (tokens <> [] /\ max_token tokens = Ok out) ->
  canonical_digits out.
Proof.
  intros Hruns [Hout|[Hout|[Hne Hout]]].
  - injection Hout as <-. apply decimal_string_canonical. lia.
  - unfold sum_tokens in Hout.
    destruct (result_map value tokens) as [values|e] eqn:Hvalues; [|discriminate].
    pose proof (values_nonnegative _ _ Hruns Hvalues) as Hpos.
    apply py_str_Ok in Hout as [_ ->].
    apply decimal_string_canonical.
    exact (proj1 (py_sum_nonnegative values 0%Z Hpos)).
  - destruct (result_map value tokens) as [values|e] eqn:Hvalues.
    + pose proof (values_nonnegative _ _ Hruns Hvalues) as Hpos.
      destruct (max_token_values _ _ Hne Hvalues) as (m & _ & Hin & _ & Hmax).
      rewrite Hmax in Hout. injection Hout as <-.
      apply decimal_string_canonical. rewrite Forall_forall in Hpos.
      apply Hpos, list_elem_of_In, Hin.
    + unfold max_token in Hout. destruct tokens as [|t tokens]; [congruence|].
      rewrite Hvalues in Hout. discriminate.
Qed.

Lemma answers_canonical_sample :
  canonical_digits (lit "21").
Proof.
  apply (answers_canonical (tokens_of_texts ["001"; "20"]) (lit "21")).
  - repeat constructor; discriminate.
  - right. left. reflexivity.
Defined.

(** ** A run of the entry point *)

Section MainFacts.
Context {W : Type} `{FileSystem W}.

Lemma main_steps (args : Namespace) :
  main args =
  bind (is_file (input args)) (fun found =>
  if negb found then raise FileNotFoundError else
  bind (read_text (input args) (encoding args)) (fun text =>
  bind (tokenize text) (fun tokens =>
  bind (mkdir (output_dir args)) (fun _ =>
  for_each (tasks args) (run_task args tokens))))).
Proof. reflexivity. Qed.

(** One turn of the loop: the task is unknown, or it raises, or its answer
    is written, the file system deciding how the turn ends. *)
Lemma run_task_cases (args : Namespace) (tokens : list NumberToken)
    (task_name : string) (st st' : process W) (r : result unit) :
  run_task args tokens task_name st = (r, st') ->
  (TASKS !! task_name = None /\ r = Raise KeyError /\ st' = st) \/
  (exists task e, TASKS !! task_name = Some task /\ task tokens = Raise e /\
                  r = Raise e /\ st' = st) \/
  (exists p data w,
     task_output args tokens task_name = Some (EvWriteText p data) /\
     fs_write_text (world st) p data (encoding args) = (w, r) /\
     st' = {| world := w; trace := trace st ++ [EvWriteText p data] |}).
Proof.
  unfold run_task, task_output, bind, lookup_task, lift, write_text.
  destruct (TASKS !! task_name) as [task|].
  2:{ unfold raise. intros [= <- <-]. left. auto. }
  unfold ret. destruct (task tokens) as [result|e] eqn:Hanswer.
  - destruct (fs_write_text (world st) _ _ _) as [w r'] eqn:Hwrite.
    intros [= <- <-]. right. right.
    eexists _, _, _. split; [reflexivity|]. split; [exact Hwrite|reflexivity].
  - intros [= <- <-]. right. left. exists task, e. auto.
Qed.

(** The loop writes the answers of the first tasks of the list, in the
    order of the list, and of all of them when it ends well. *)
Lemma for_each_tasks (args : Namespace) (tokens : list NumberToken)
    (names : list string) (st st' : process W) (r : result unit) :
  for_each names (run_task args tokens) st = (r, st') ->
  exists done rest writes,
    names = done ++ rest /\
    Forall2 (fun name ev => task_output args tokens name = Some ev) done writes /\
    trace st' = trace st ++ writes /\
    (r = Ok tt -> rest = []).
Proof.
  revert st. induction names as [|name names IH]; intros st; simpl.
  - intros [= <- <-]. exists [], [], [].
    split; [reflexivity|]. split; [constructor|].
    split; [symmetry; apply app_nil_r|reflexivity].
  - unfold bind at 1.
    destruct (run_task args tokens name st) as [[[]|e] st1] eqn:Hturn.
    + intros Hloop.
      apply run_task_cases in Hturn
        as [(_ & [=] & _)|[(task & e & _ & _ & [=] & _)
                          |(p & data & w & Hout & Hwrite & ->)]].
      destruct (IH _ Hloop) as (done & rest & writes & -> & Hall & Htrace & Hok).
      exists (name :: done), rest, (EvWriteText p data :: writes).
      split; [reflexivity|]. split; [constructor; assumption|].
      split; [rewrite Htrace; simpl; rewrite <- app_assoc; reflexivity|].
      exact Hok.
    + intros [= <- <-].
      apply run_task_cases in Hturn
        as [(Hnone & [= ->] & ->)|[(task & e' & Htask & Hraise & [= ->] & ->)
                                  |(p & data & w & Hout & Hwrite & ->)]].
      * exists [], (name :: names), [].
        split; [reflexivity|]. split; [constructor|].
        split; [symmetry; apply app_nil_r|discriminate].
      * exists [], (name :: names), [].
        split; [reflexivity|]. split; [constructor|].
        split; [symmetry; apply app_nil_r|discriminate].
      * exists [name], names, [EvWriteText p data].
        split; [reflexivity|]. split; [repeat constructor; exact Hout|].
        split; [reflexivity|discriminate].
Qed.



(** The steps of [main], one after the other. *)
Lemma main_cases (args : Namespace) (st : process W) :
  main args st =
  let st1 := emit (EvIsFile (input args)) st in
  if fs_is_file (world st) (input args) then
    let st2 := emit (EvReadText (input args)) st1 in
    match fs_read_text (world st) (input args) (encoding args) with
    | Ok text =>
        let st3 := emit EvTokenize st2 in
        let (w, made) := fs_mkdir_parents_exist_ok (world st) (output_dir args) in
        let st4 := {| world := w;
                      trace := trace st3 ++ [EvMkdir (output_dir args)] |} in
        match made with
        | Ok _ =>
            for_each (tasks args) (run_task args (extract_number_tokens text)) st4
        | Raise e => (Raise e, st4)
        end
    | Raise e => (Raise e, st2)
    end
  else (Raise FileNotFoundError, st1).
Proof.
  rewrite main_steps. destruct st as [w0 events].
  unfold bind, is_file, read_text, tokenize, mkdir, raise, emit. simpl.
  destruct (fs_is_file w0 (input args)); simpl; [|reflexivity].
  destruct (fs_read_text w0 (input args) (encoding args)); [|reflexivity].
  destruct (fs_mkdir_parents_exist_ok w0 (output_dir args)) as [w [[]|e]];
    reflexivity.
Qed.

(** A run of [main], whatever its end, asks whether the input is a file,
    and then at most: reads it, tokenizes once, makes the output directory,
    and writes the answers of the first tasks of the list, each in its own
    file of that directory, in the order of the list. *)
Theorem main_trace (args : Namespace) (st st' : process W) (r : result unit) :
  main args st = (r, st') ->
  exists events,
    trace st' = trace st ++ EvIsFile (input args) :: events /\
    (events = [] \/
     events = [EvReadText (input args)] \/
     exists text done rest writes,
       fs_read_text (world st) (input args) (encoding args) = Ok text /\
       tasks args = done ++ rest /\
       Forall2 (fun name ev =>
                  task_output args (extract_number_tokens text) name = Some ev)
               done writes /\
       events = [EvReadText (input args); EvTokenize; EvMkdir (output_dir args)]
                ++ writes).
Proof.
  rewrite main_cases. cbv zeta.
  destruct (fs_is_file (world st) (input args)).
  2:{ intros [= <- <-]. exists []. split; [reflexivity|left; reflexivity]. }
  destruct (fs_read_text (world st) (input args) (encoding args))
    as [text|e] eqn:Hread.
  2:{ intros [= <- <-]. exists [EvReadText (input args)].
      split; [simpl; rewrite <- app_assoc; reflexivity|right; left; reflexivity]. }
  destruct (fs_mkdir_parents_exist_ok (world st) (output_dir args)) as [w [[]|e]].
  - intros Hloop.
    destruct (for_each_tasks _ _ _ _ _ _ Hloop)
      as (done & rest & writes & Htasks & Hall & Htrace & _).
    exists ([EvReadText (input args); EvTokenize; EvMkdir (output_dir args)]
            ++ writes).
    split.
    + rewrite Htrace. simpl. rewrite <- !app_assoc. reflexivity.
    + right. right. exists text, done, rest, writes. auto.
  - intros [= <- <-].
    exists [EvReadText (input args); EvTokenize; EvMkdir (output_dir args)].
    split.
    + simpl. rewrite <- !app_assoc. reflexivity.
    + right. right. exists text, [], (tasks args), [].
      split; [reflexivity|]. split; [reflexivity|]. split; [constructor|reflexivity].
Qed.

(** When [main] returns, all was done: the input was read and tokenized
    once, the output directory made, and for each task of the list, in its
    order, the answer of the task on the tokens and a newline were written
    in the file of the task. *)
Theorem main_returns (args : Namespace) (st st' : process W) :
  main args st = (Ok tt, st') ->
  exists text writes,
    fs_is_file (world st) (input args) = true /\
    fs_read_text (world st) (input args) (encoding args) = Ok text /\
    Forall2 (fun name ev =>
               task_output args (extract_number_tokens text) name = Some ev)
            (tasks args) writes /\
    trace st' = trace st ++ [EvIsFile (input args); EvReadText (input args);
                             EvTokenize; EvMkdir (output_dir args)] ++ writes.
Proof.
  rewrite main_cases. cbv zeta.
  destruct (fs_is_file (world st) (input args)); [|discriminate].
  destruct (fs_read_text (world st) (input args) (encoding args))
    as [text|e] eqn:Hread; [|discriminate].
  destruct (fs_mkdir_parents_exist_ok (world st) (output_dir args)) as [w [[]|e]];
    [|discriminate].
  intros Hloop.
  destruct (for_each_tasks _ _ _ _ _ _ Hloop)
    as (done & rest & writes & Htasks & Hall & Htrace & Hok).
  rewrite (Hok eq_refl), app_nil_r in Htasks. subst done.
  exists text, writes. split; [reflexivity|]. split; [reflexivity|].
  split; [exact Hall|]. rewrite Htrace. simpl. rewrite <- !app_assoc. reflexivity.
Qed.

End MainFacts.

Lemma main_trace_sample :
  exists events,
    trace (main sample_args (start sample_fs)).2
    = [] ++ EvIsFile ["dane.txt"] :: events /\
    (events = [] \/
     events = [EvReadText ["dane.txt"]] \/
     exists text done rest writes,
       mem_read_text sample_fs ["dane.txt"] "ascii" = Ok text /\
       ["count"; "sum"; "max"; "longest"] = done ++ rest /\
       Forall2 (fun name ev =>
                  task_output sample_args (extract_number_tokens text) name
                  = Some ev)
               done writes /\
       events = [EvReadText ["dane.txt"]; EvTokenize; EvMkdir ["out"; "answers"]]
                ++ writes).
Proof.
  exact (main_trace sample_args (start sample_fs)
           (main sample_args (start sample_fs)).2
           (main sample_args (start sample_fs)).1
           (surjective_pairing _)).
Defined.

Lemma main_returns_sample :
  exists text writes,
    mem_is_file sample_fs ["dane.txt"] = true /\
    mem_read_text sample_fs ["dane.txt"] "ascii" = Ok text /\
    Forall2 (fun name ev =>
               task_output sample_args (extract_number_tokens text) name = Some ev)
            ["count"; "sum"; "max"; "longest"] writes /\
    trace (main sample_args (start sample_fs)).2
    = [] ++ [EvIsFile ["dane.txt"]; EvReadText ["dane.txt"];
             EvTokenize; EvMkdir ["out"; "answers"]] ++ writes.
Proof.
  exact (main_returns sample_args (start sample_fs)
           (main sample_args (start sample_fs)).2 eq_refl).
Defined.


(** ** The greatest number and the longest number *)

(** A number written without a zero in front is at least the power of ten
    of its length less one. *)
Lemma digits_number_least (s : list N) :
  no_leading_zero s ->
  (10 ^ N.of_nat (length s - 1) <= digits_number s)%N.
Proof.
  intros [[Hne Hall] Hhead]. destruct s as [|c s]; [congruence|].
  unfold digits_number. simpl fold_left.
  eapply N.le_trans; [|apply digits_number_from].
  replace (length (c :: s) - 1) with (length s) by (simpl length; lia).
  assert (1 <= default 0 (decimal_value c))%N as Hc.
  { apply Forall_inv in Hall. unfold is_decimal in Hall.
    specialize (Hhead c eq_refl).
    destruct (decimal_value c) as [d|]; [|discriminate]. simpl.
    destruct (N.eq_dec d 0) as [->|]; [congruence|lia]. }
  revert Hc.
  generalize (default 0%N (decimal_value c)) (10 ^ N.of_nat (length s))%N.
  intros d p Hd. nia.
Qed.

(** Of two numbers without a zero in front, the shorter is the smaller. *)
Lemma shorter_is_smaller (s s' : list N) :
  digit_run s -> no_leading_zero s' -> length s < length s' ->
  (digits_number s < digits_number s')%N.
Proof.
  intros Hs Hs' Hlen. eapply N.lt_le_trans; [apply digits_number_bound|].
  eapply N.le_trans; [|apply digits_number_least, Hs'].
  apply N.pow_le_mono_r; lia.
Qed.

Lemma values_In (tokens : list NumberToken) (values : list Z) (m : Z) :
  result_map value tokens = Ok values -> In m values ->
  exists t, In t tokens /\ value t = Ok m.
Proof.
  intros Hvalues%result_map_Forall2. induction Hvalues as [|t v tokens values Ht _ IH].
  - intros [].
  - intros [<-|Hin].
    + exists t. split; [left; reflexivity|exact Ht].
    + destruct (IH Hin) as (t' & Hin' & Ht'). exists t'. split; [right|]; assumption.
Qed.

Lemma values_In_value (tokens : list NumberToken) (values : list Z)
    (t : NumberToken) :
  result_map value tokens = Ok values -> In t tokens ->
  exists v, In v values /\ value t = Ok v.
Proof.
  intros Hvalues%result_map_Forall2.
  induction Hvalues as [|t' v' tokens values Ht' _ IH].
  - intros [].
  - intros [->|Hin].
    + exists v'. split; [left; reflexivity|exact Ht'].
    + destruct (IH Hin) as (v & Hv & Ht). exists v. split; [right|]; assumption.
Qed.

(** When no token starts with a zero and [max_token] answers, the greatest
    number is one of the longest: the answer is the value of a token that
    no token has more digits than, and [longest_token] answers the text of
    a token of as many digits, a space, and that number of digits. *)
Theorem max_among_longest (tokens : list NumberToken) (m : Z) :
  Forall (fun t => no_leading_zero (text t)) tokens ->
  answer_number (max_token tokens) = Some m ->
  exists t longest,
    In t tokens /\ value t = Ok m /\
    (forall t', In t' tokens -> length (text t') <= length (text t)) /\
    In longest tokens /\ length (text longest) = length (text t) /\
    longest_token tokens
    = Ok (text longest ++ lit " "
          ++ decimal_string (Z.of_nat (length (text t)))).
Proof.
  intros Hall (values & Hvalues & Hm)%answer_number_max.
  assert (Forall (fun t => digit_run (text t)) tokens) as Hruns.
  { eapply Forall_impl; [exact Hall|]. intros t [Ht _]. exact Ht. }
  destruct tokens as [|first others].
  { injection Hvalues as <-. discriminate. }
  destruct values as [|v values].
  { apply result_map_Forall2 in Hvalues. inversion Hvalues. }
  destruct (py_max_greatest v values) as (m' & Hm' & Hin & Hmax).
  assert (m' = m) as -> by congruence.
  destruct (values_In _ _ _ Hvalues Hin) as (t & Ht & Hvalue).
  rewrite Forall_forall in Hall, Hruns.
  assert (forall t', In t' (first :: others) ->
                     length (text t') <= length (text t)) as Hlongest.
  { intros t' Ht'.
    destruct (decide (length (text t') <= length (text t))) as [|Hlonger];
      [assumption|exfalso].
    pose proof (shorter_is_smaller (text t) (text t')
                  (Hruns t (proj2 (list_elem_of_In _ _) Ht))
                  (Hall t' (proj2 (list_elem_of_In _ _) Ht'))
                  ltac:(lia)) as Hless.
    destruct (values_In_value _ _ _ Hvalues Ht') as (v' & Hin' & Hvalue').
    pose proof (Hmax _ Hin') as Hle.
    rewrite (value_digit_run t (Hruns t (proj2 (list_elem_of_In _ _) Ht)))
      in Hvalue.
    rewrite (value_digit_run t' (Hruns t' (proj2 (list_elem_of_In _ _) Ht')))
      in Hvalue'.
    destruct (max_str_digits <? length (text t)); [discriminate|].
    destruct (max_str_digits <? length (text t')); [discriminate|].
    injection Hvalue as <-. injection Hvalue' as <-. lia. }
  destruct (longest_loop others first) as (i & longest & Hfold & Hi & Hlen & _).
  unfold token_length in Hlen.
  assert (In longest (first :: others)) as Hlong
    by (apply list_elem_of_In, list_elem_of_lookup; eauto).
  assert (length (text longest) = length (text t)) as Heq
    by (apply Nat.le_antisymm; [apply Hlongest, Hlong|apply Hlen, Ht]).
  exists t, longest. split; [exact Ht|]. split; [exact Hvalue|].
  split; [exact Hlongest|]. split; [exact Hlong|]. split; [exact Heq|].
  unfold longest_token. rewrite Hfold. unfold str_len, token_length.
  rewrite Heq. reflexivity.
Qed.

Lemma max_among_longest_sample :
  exists t longest,
    In t (tokens_of_texts ["356"; "4"; "245"]) /\ value t = Ok 356%Z /\
    (forall t', In t' (tokens_of_texts ["356"; "4"; "245"]) ->
                length (text t') <= length (text t)) /\
    In longest (tokens_of_texts ["356"; "4"; "245"]) /\
    length (text longest) = length (text t) /\
    longest_token (tokens_of_texts ["356"; "4"; "245"])
    = Ok (text longest ++ lit " "
          ++ decimal_string (Z.of_nat (length (text t)))).
Proof.
  apply (max_among_longest (tokens_of_texts ["356"; "4"; "245"]) 356).
  - assert (forall ds c, digit_run (c :: ds) ->
                         decimal_value c <> Some 0%N ->
                         no_leading_zero (c :: ds)) as Hrun.
    { intros ds c Hds Hc. split; [exact Hds|]. intros c' [= <-]. exact Hc. }
    repeat (apply Forall_cons; split;
            [apply Hrun; [split; [discriminate|repeat constructor]
                         |vm_compute; discriminate]|]).
    constructor.
  - reflexivity.
Defined.

(** ** Reading the answer of [longest_token] back *)

Lemma split_at_first {A} (x : A) (l1 l2 r1 r2 : list A) :
  ~ In x l1 -> ~ In x l2 -> l1 ++ x :: r1 = l2 ++ x :: r2 ->
  l1 = l2 /\ r1 = r2.
Proof.
  revert l2. induction l1 as [|a l1 IH]; intros [|b l2] H1 H2; simpl.
  - intros [= <-]. auto.
  - intros [= <- _]. destruct H2. left. reflexivity.
  - intros [= -> _]. destruct H1. left. reflexivity.
  - intros [= <- Heq]. destruct (IH l2) as [-> ->]; auto.
    + intros Hin. apply H1. right. exact Hin.
    + intros Hin. apply H2. right. exact Hin.
Qed.

Lemma digit_run_no_space (s : list N) : digit_run s -> ~ In 32%N s.
Proof.
  intros [_ Hall] Hin. rewrite Forall_forall in Hall.
  apply list_elem_of_In, Hall in Hin. discriminate.
Qed.

(** On tokens made of digits, the answer of [longest_token] splits at its
    only space into the text of a token that no token is longer than and
    the decimal string of the length of that text, which [int] reads as
    that length, a length being within the limit of the interpreter. *)
Theorem longest_token_read_back (tokens : list NumberToken)
    (before after : str) :
  Forall (fun t => digit_run (text t)) tokens ->
  longest_token tokens = Ok (before ++ 32%N :: after) ->
  ~ In 32%N before ->
  exists t,
    In t tokens /\ text t = before /\
    decimal_string_of (Z.of_nat (length before)) after /\
    (within_limit (Z.of_nat (length before)) ->
     py_int after = Ok (Z.of_nat (length before))) /\
    (forall t', In t' tokens -> token_length t' <= length before).
Proof.
  intros Hruns Hout Hspace. destruct tokens as [|first others].
  { simpl in Hout. injection Hout as Hout.
    assert (In 32%N BRAK) as Hin
      by (rewrite Hout; apply in_or_app; right; left; reflexivity).
    vm_compute in Hin. decompose [or] Hin; discriminate || contradiction. }
  destruct (longest_loop others first) as (i & t & Hfold & Hi & Hlen & _).
  assert (In t (first :: others)) as Ht
    by (apply list_elem_of_In, list_elem_of_lookup; eauto).
  unfold longest_token in Hout. rewrite Hfold in Hout. injection Hout as Hout.
  rewrite Forall_forall in Hruns.
  destruct (split_at_first 32%N (text t) before
              (str_len (token_length t)) after) as [Htext Hafter].
  - apply digit_run_no_space, Hruns, list_elem_of_In, Ht.
  - exact Hspace.
  - exact Hout.
  - exists t. split; [exact Ht|]. split; [exact Htext|].
    rewrite <- Hafter, <- Htext. unfold str_len, token_length.
    split; [apply decimal_string_decimal|].
    split; [apply py_int_decimal_string|exact Hlen].
Qed.

Lemma longest_token_read_back_sample :
  exists t,
    In t (tokens_of_texts ["001"; "20"]) /\ text t = lit "001" /\
    decimal_string_of (Z.of_nat (length (lit "001"))) (lit "3") /\
    (within_limit (Z.of_nat (length (lit "001"))) ->
     py_int (lit "3") = Ok (Z.of_nat (length (lit "001")))) /\
    (forall t', In t' (tokens_of_texts ["001"; "20"]) ->
                token_length t' <= length (lit "001")).
Proof.
  apply (longest_token_read_back (tokens_of_texts ["001"; "20"])
           (lit "001") (lit "3")).
  - repeat constructor; discriminate.
  - reflexivity.
  - vm_compute. intuition discriminate.
Defined.

(** ** A run whose input cannot be read *)

(** When the input is a file that cannot be read, for one because its
    bytes do not decode, [main] raises what reading raised, having made no
    directory and written nothing: the file system is as it was. *)
Theorem main_unreadable_input
    {W : Type} `{FileSystem W} (args : Namespace) (st : process W) (e : exn) :
  fs_is_file (world st) (input args) = true ->
  fs_read_text (world st) (input args) (encoding args) = Raise e ->
  exists st',
    main args st = (Raise e, st') /\
    world st' = world st /\
    trace st' = trace st ++ [EvIsFile (input args); EvReadText (input args)].
Proof.
  intros Hfile Hread. rewrite main_cases. cbv zeta. rewrite Hfile, Hread.
  eexists. split; [reflexivity|]. split; [reflexivity|].
  simpl. rewrite <- app_assoc. reflexivity.
Qed.

Lemma main_unreadable_input_sample :
  exists st',
    main {| input := ["dane.bin"]; output_dir := ["out"];
            encoding := "ascii"; tasks := ["count"] |}
         (start (<[ ["dane.bin"] := File [200%N] ]> ∅))
    = (Raise UnicodeDecodeError, st') /\
    world st' = <[ ["dane.bin"] := File [200%N] ]> ∅ /\
    trace st' = [] ++ [EvIsFile ["dane.bin"]; EvReadText ["dane.bin"]].
Proof.
  exact (main_unreadable_input
           {| input := ["dane.bin"]; output_dir := ["out"];
              encoding := "ascii"; tasks := ["count"] |}
           (start (<[ ["dane.bin"] := File [200%N] ]> ∅))
           UnicodeDecodeError eq_refl eq_refl).
Defined.

(** ** A run on a number of too many digits *)

Lemma run_task_raises {W : Type} `{FileSystem W} (args : Namespace)
    (tokens : list NumberToken) (task_name : string) (task : TaskFunction)
    (e : exn) (st : process W) :
  TASKS !! task_name = Some task -> task tokens = Raise e ->
  run_task args tokens task_name st = (Raise e, st).
Proof.
  intros Htask Hraise. unfold run_task, bind, lookup_task, lift.
  rewrite Htask. unfold ret. rewrite Hraise. reflexivity.
Qed.

(** When the text holds a number of more digits than the interpreter
    converts and the first task is "sum" or "max", [main] raises
    [ValueError]: it has read the input and made the output directory, and
    it writes no answer. *)
Theorem main_long_number
    {W : Type} `{FileSystem W} (args : Namespace) (st : process W)
    (content : str) (t : NumberToken) (task_name : string) (rest : list string) :
  fs_is_file (world st) (input args) = true ->
  fs_read_text (world st) (input args) (encoding args) = Ok content ->
  In t (extract_number_tokens content) ->
  max_str_digits < length (text t) ->
  (fs_mkdir_parents_exist_ok (world st) (output_dir args)).2 = Ok tt ->
  tasks args = task_name :: rest ->
  task_name = "sum" \/ task_name = "max" ->
  exists st',
    main args st = (Raise ValueError, st') /\
    world st' = (fs_mkdir_parents_exist_ok (world st) (output_dir args)).1 /\
    trace st' = trace st ++ [EvIsFile (input args); EvReadText (input args);
                             EvTokenize; EvMkdir (output_dir args)].
Proof.
  intros Hfile Hread Hin Hlong Hmkdir Htasks Hname.
  assert (value t = Raise ValueError) as Hvalue.
  { apply value_long_run; [|exact Hlong].
    pose proof (tokenizer_digit_runs content) as Hruns.
    rewrite Forall_forall in Hruns. apply Hruns, list_elem_of_In, Hin. }
  assert (exists task, TASKS !! task_name = Some task /\
                       task (extract_number_tokens content) = Raise ValueError)
    as (task & Htask & Hraise).
  { destruct Hname as [-> | ->].
    - exists sum_tokens. split; [reflexivity|].
      apply (sum_tokens_In_raises _ t ValueError Hin Hvalue).
    - exists max_token. split; [reflexivity|].
      apply (max_token_In_raises _ t ValueError Hin Hvalue). }
  rewrite main_cases. cbv zeta. rewrite Hfile, Hread, Htasks.
  destruct (fs_mkdir_parents_exist_ok (world st) (output_dir args)) as [w r].
  simpl in Hmkdir. subst r. simpl for_each. unfold bind at 1.
  rewrite (run_task_raises _ _ _ _ _ _ Htask Hraise).
  eexists. split; [reflexivity|]. split; [reflexivity|].
  simpl. rewrite <- !app_assoc. reflexivity.
Qed.

Lemma main_long_number_sample :
  exists st',
    main sum_args (start long_number_fs) = (Raise ValueError, st') /\
    world st' = (fs_mkdir_parents_exist_ok (world (start long_number_fs))
                                           (output_dir sum_args)).1 /\
    trace st' = trace (start long_number_fs)
                ++ [EvIsFile (input sum_args); EvReadText (input sum_args);
                    EvTokenize; EvMkdir (output_dir sum_args)].
Proof.
  refine (main_long_number sum_args (start long_number_fs)
            (replicate 4301 49%N) {| text := replicate 4301 49%N |}
            "sum" [] _ _ _ _ _ _ _).
  - reflexivity.
  - vm_compute. reflexivity.
  - rewrite tokens_of_digit_run
      by (apply replicate_digit_run; [lia|reflexivity]).
    left. reflexivity.
  - cbn [text]. rewrite length_replicate. apply le_n.
  - reflexivity.
  - reflexivity.
  - left. reflexivity.
Defined.
